(** * drivers/md/dm-sysfs.c: the sysfs attributes of a mapped device

    A shallow embedding of the attribute dispatchers [dm_attr_show] and
    [dm_attr_store], of the seven attribute callbacks and of the attribute
    table, followed by the properties of the latency histograms and of the
    reference discipline of the dispatchers. *)

From Stdlib Require Import ZArith Ascii String.
From stdpp Require Import base tactics option numbers list gmap strings pretty.

Local Open Scope Z_scope.

(** ** C integers *)

Module CInt.

Definition INT_MIN : Z := - 2 ^ 31.
Definition INT_MAX : Z := 2 ^ 31 - 1.
Definition SSIZE_MAX : Z := 2 ^ 63 - 1.

(** The value of an [int] expression: the mathematical result reduced
    modulo 2^32 into [INT_MIN, INT_MAX] (the kernel is built with wrapping
    signed arithmetic). *)
Definition to_int (z : Z) : Z := (z + 2 ^ 31) mod 2 ^ 32 - 2 ^ 31.

(** Conversion to [ssize_t], a 64-bit signed [long]. *)
Definition to_ssize_t (z : Z) : Z := (z + 2 ^ 63) mod 2 ^ 64 - 2 ^ 63.

Definition in_int (z : Z) : Prop := INT_MIN <= z <= INT_MAX.

End CInt.
Import CInt.

(** Error numbers of <asm-generic/errno-base.h>. *)
Definition ENOENT : Z := 2.
Definition EIO : Z := 5.
Definition ENXIO : Z := 6.
Definition EINVAL : Z := 22.

(** File modes of <linux/stat.h>. *)
Definition S_IRUGO : Z := 292.
Definition S_IWUSR : Z := 128.

(** ** C strings in a character buffer

    A buffer is the list of the bytes that start at a [char *].  Its capacity
    is not part of the model: a write past the last modelled byte extends the
    list, and bytes never written read as NUL. *)

Definition NUL : ascii := "000"%char.
Definition LF : ascii := "010"%char.

Fixpoint strlen (buf : list ascii) : nat :=
  match buf with
  | [] => 0%nat
  | c :: buf' => if decide (c = NUL) then 0%nat else S (strlen buf')
  end.

(** Writing the bytes [bs] at offset [off] of [buf]. *)
Definition store_bytes (buf : list ascii) (off : nat) (bs : list ascii)
  : list ascii :=
  resize off NUL buf ++ bs ++ drop (off + length bs) buf.

Definition strcpy (buf s : list ascii) : list ascii :=
  store_bytes buf 0 (s ++ [NUL]).

Definition strcat (buf s : list ascii) : list ascii :=
  store_bytes buf (strlen buf) (s ++ [NUL]).

(** A format string is a sequence of literal pieces and [%d] conversions;
    [%d] prints its [int] argument in decimal, with a leading minus sign when
    it is negative. *)
Inductive conv :=
  | Lit (s : string)
  | Conv_d.

Fixpoint vformat (fmt : list conv) (args : list Z) : list ascii :=
  match fmt with
  | [] => []
  | Lit s :: fmt' => list_ascii_of_string s ++ vformat fmt' args
  | Conv_d :: fmt' =>
      match args with
      | a :: args' => list_ascii_of_string (pretty a) ++ vformat fmt' args'
      | [] => vformat fmt' []
      end
  end.

(** [sprintf(buf + ptr, fmt, args...)]: the text and its terminating NUL are
    written at offset [ptr]; the result is the number of characters written,
    the NUL not counted, as an [int]. *)
Definition sprintf (buf : list ascii) (ptr : Z) (fmt : list conv)
    (args : list Z) : Z * list ascii :=
  let s := vformat fmt args in
  (to_int (Z.of_nat (length s)),
   store_bytes buf (Z.to_nat ptr) (s ++ [NUL])).

Definition nl : string := String LF EmptyString.

(** ** The mapped device *)

(** [atomic_t]: a 32-bit cell, kept as its unsigned content in [0, 2^32).
    [atomic_read] yields it as an [int]. *)
Abbreviation atomic_t := Z (only parsing).

Definition atomic_read (v : atomic_t) : Z := to_int v.
Definition atomic_set (i : Z) : atomic_t := i mod 2 ^ 32.
Definition atomic_add (i : Z) (v : atomic_t) : atomic_t := (v + i) mod 2 ^ 32.

(** The histogram geometry, six constants that dm.h defines and
    dm-sysfs.c only uses: the number of buckets and the bucket width of each
    scale. *)
Class dm_latency_config := {
  DM_LATENCY_STATS_US_NR : Z;
  DM_LATENCY_STATS_US_GRAINSIZE : Z;
  DM_LATENCY_STATS_MS_NR : Z;
  DM_LATENCY_STATS_MS_GRAINSIZE : Z;
  DM_LATENCY_STATS_S_NR : Z;
  DM_LATENCY_STATS_S_GRAINSIZE : Z;
}.

(** The fields of [struct mapped_device] that dm-sysfs.c reaches, directly
    or through the accessors of dm.c and dm-ioctl.c. *)
Record mapped_device := MappedDevice {
  holders : Z;
  md_name : option (list ascii);
  md_uuid : option (list ascii);
  md_suspended : bool;
  latency_stats_us : list atomic_t;
  latency_stats_ms : list atomic_t;
  latency_stats_s : list atomic_t;
}.

Definition with_holders (h : Z) (md : mapped_device) : mapped_device :=
  MappedDevice h (md_name md) (md_uuid md) (md_suspended md)
    (latency_stats_us md) (latency_stats_ms md) (latency_stats_s md).

Definition with_latency_stats (us ms s : list atomic_t) (md : mapped_device)
  : mapped_device :=
  MappedDevice (holders md) (md_name md) (md_uuid md) (md_suspended md) us ms s.

(** Modelled from the spec: [dm_copy_name_and_uuid] is defined in
    dm-ioctl.c, of which dm-sysfs.c has the declaration only.  The spec gives
    the object a [get_name] and a [get_uuid] that return a string or fail;
    here a requested string that cannot be retrieved makes the call return a
    nonzero code and leaves the buffers alone, otherwise each buffer that is
    not NULL receives its string. *)
Definition dm_copy_name_and_uuid (md : mapped_device)
    (name uuid : option (list ascii))
  : Z * option (list ascii) * option (list ascii) :=
  match name, md_name md, uuid, md_uuid md with
  | Some _, None, _, _ => (- ENXIO, name, uuid)
  | _, _, Some _, None => (- ENXIO, name, uuid)
  | _, n, _, u =>
      (0, (λ b, strcpy b (default [] n)) <$> name,
          (λ b, strcpy b (default [] u)) <$> uuid)
  end.

(** Modelled from the spec: [dm_suspended_md] is defined in dm.c, of which
    dm-sysfs.c has the declaration only.  The spec gives the object an
    [is_suspended] that returns a boolean; as an [int] it is 1 or 0. *)
Definition dm_suspended_md (md : mapped_device) : Z :=
  if md_suspended md then 1 else 0.

(** ** The attribute callbacks *)

Definition dm_attr_name_show (md : mapped_device) (buf : list ascii)
  : Z * list ascii :=
  let '(r, name, _) := dm_copy_name_and_uuid md (Some buf) None in
  let buf := default buf name in
  if decide (r ≠ 0) then (- EIO, buf)
  else
    let buf := strcat buf [LF] in
    (to_ssize_t (Z.of_nat (strlen buf)), buf).

Definition dm_attr_uuid_show (md : mapped_device) (buf : list ascii)
  : Z * list ascii :=
  let '(r, _, uuid) := dm_copy_name_and_uuid md None (Some buf) in
  let buf := default buf uuid in
  if decide (r ≠ 0) then (- EIO, buf)
  else
    let buf := strcat buf [LF] in
    (to_ssize_t (Z.of_nat (strlen buf)), buf).

Definition dm_attr_suspended_show (md : mapped_device) (buf : list ascii)
  : Z * list ascii :=
  let '(_, buf) := sprintf buf 0 [Conv_d; Lit nl] [dm_suspended_md md] in
  (to_ssize_t (Z.of_nat (strlen buf)), buf).

(** The three latency callbacks are the same loop over the histogram of
    their scale.  [todo] counts the iterations left, NR - i; the loop
    variables [i], [slot_base] and [ptr] are [int]s.  The array is declared
    with NR counters; an index past the modelled list reads 0. *)
Fixpoint latency_show_loop (fmt : list conv) (GRAINSIZE : Z)
    (stats : list atomic_t) (todo : nat) (i slot_base ptr : Z)
    (buf : list ascii) : list ascii :=
  match todo with
  | O => buf
  | S todo' =>
      let '(nr, buf') :=
        sprintf buf ptr fmt
          [slot_base;
           to_int (to_int (slot_base + GRAINSIZE) - 1);
           atomic_read (default 0 (stats !! Z.to_nat i))] in
      if decide (nr < 0) then buf'
      else
        latency_show_loop fmt GRAINSIZE stats todo'
          (to_int (i + 1)) (to_int (slot_base + GRAINSIZE))
          (to_int (ptr + nr)) buf'
  end.

Definition latency_show (fmt : list conv) (NR GRAINSIZE : Z)
    (stats : list atomic_t) (buf : list ascii) : Z * list ascii :=
  let buf := latency_show_loop fmt GRAINSIZE stats (Z.to_nat NR) 0 0 0 buf in
  (to_ssize_t (Z.of_nat (strlen buf)), buf).

Section callbacks.
Context {cfg : dm_latency_config}.

Definition dm_attr_io_latency_us_show (md : mapped_device)
    (buf : list ascii) : Z * list ascii :=
  latency_show [Conv_d; Lit "-"; Conv_d; Lit "(us):"; Conv_d; Lit nl]
    DM_LATENCY_STATS_US_NR DM_LATENCY_STATS_US_GRAINSIZE
    (latency_stats_us md) buf.

Definition dm_attr_io_latency_ms_show (md : mapped_device)
    (buf : list ascii) : Z * list ascii :=
  latency_show [Conv_d; Lit "-"; Conv_d; Lit "(ms):"; Conv_d; Lit nl]
    DM_LATENCY_STATS_MS_NR DM_LATENCY_STATS_MS_GRAINSIZE
    (latency_stats_ms md) buf.

Definition dm_attr_io_latency_s_show (md : mapped_device)
    (buf : list ascii) : Z * list ascii :=
  latency_show [Conv_d; Lit "-"; Conv_d; Lit "(s):"; Conv_d; Lit nl]
    DM_LATENCY_STATS_S_NR DM_LATENCY_STATS_S_GRAINSIZE
    (latency_stats_s md) buf.

(** [for (i = 0; i < NR; i++) atomic_set(&stats[i], 0);] on an array that
    is declared with NR counters; an index past the modelled list writes
    nothing. *)
Fixpoint latency_reset_loop (todo : nat) (i : Z) (stats : list atomic_t)
  : list atomic_t :=
  match todo with
  | O => stats
  | S todo' =>
      latency_reset_loop todo' (to_int (i + 1))
        (<[Z.to_nat i := atomic_set 0]> stats)
  end.

Definition dm_attr_io_latency_reset_store (md : mapped_device)
    (buf : list ascii) (len : Z) : Z * mapped_device :=
  let us :=
    latency_reset_loop (Z.to_nat DM_LATENCY_STATS_US_NR) 0
      (latency_stats_us md) in
  let ms :=
    latency_reset_loop (Z.to_nat DM_LATENCY_STATS_MS_NR) 0
      (latency_stats_ms md) in
  let s :=
    latency_reset_loop (Z.to_nat DM_LATENCY_STATS_S_NR) 0
      (latency_stats_s md) in
  (to_ssize_t len, with_latency_stats us ms s md).

End callbacks.

(** ** Attribute descriptors and the attribute table *)

Record attribute := Attribute {
  attr_name : string;
  attr_mode : Z;
}.

Definition show_fn : Type := mapped_device → list ascii → Z * list ascii.
Definition store_fn : Type := mapped_device → list ascii → Z → Z * mapped_device.

(** [struct dm_sysfs_attr]; a NULL callback is [None]. *)
Record dm_sysfs_attr := DmSysfsAttr {
  attr : attribute;
  show : option show_fn;
  store : option store_fn;
}.

(** [DM_ATTR_RO(_name)] and [DM_ATTR_RW(_name)]. *)
Definition DM_ATTR_RO (name : string) (f : show_fn) : dm_sysfs_attr :=
  DmSysfsAttr (Attribute name S_IRUGO) (Some f) None.

Definition DM_ATTR_RW (name : string) (f : store_fn) : dm_sysfs_attr :=
  DmSysfsAttr (Attribute name (Z.lor S_IRUGO S_IWUSR)) None (Some f).

Section table.
Context {cfg : dm_latency_config}.

Definition dm_attr_name := DM_ATTR_RO "name" dm_attr_name_show.
Definition dm_attr_uuid := DM_ATTR_RO "uuid" dm_attr_uuid_show.
Definition dm_attr_suspended := DM_ATTR_RO "suspended" dm_attr_suspended_show.
Definition dm_attr_io_latency_us :=
  DM_ATTR_RO "io_latency_us" dm_attr_io_latency_us_show.
Definition dm_attr_io_latency_ms :=
  DM_ATTR_RO "io_latency_ms" dm_attr_io_latency_ms_show.
Definition dm_attr_io_latency_s :=
  DM_ATTR_RO "io_latency_s" dm_attr_io_latency_s_show.
Definition dm_attr_io_latency_reset :=
  DM_ATTR_RW "io_latency_reset" dm_attr_io_latency_reset_store.

Definition dm_attrs : list dm_sysfs_attr :=
  [dm_attr_name; dm_attr_uuid; dm_attr_suspended; dm_attr_io_latency_us;
   dm_attr_io_latency_ms; dm_attr_io_latency_s; dm_attr_io_latency_reset].

End table.

(** ** The devices behind the kobjects

    A kobject is embedded in its mapped device, so a [struct kobject *] and
    the [struct mapped_device *] obtained from it name the same object.  The
    world maps each such pointer to the device it points to, as long as that
    device lives, and keeps the history of the reference operations and
    callback invocations performed so far. *)

Definition kobject : Type := nat.

Inductive event :=
  | Acquire (md : kobject)
  | Release (md : kobject)
  | ShowCall (md : kobject)
  | StoreCall (md : kobject).

Record world := World {
  objects : gmap kobject mapped_device;
  history : list event;
}.

(** Computations over the world; [None] is a dereference of a pointer to a
    device that is gone. *)
Definition M (A : Type) : Type := world → option (A * world).

#[export] Instance M_ret : MRet M := λ A a σ, Some (a, σ).
#[export] Instance M_bind : MBind M := λ A B f m σ,
  match m σ with
  | Some (a, σ') => f a σ'
  | None => None
  end.

(** Modelled from the spec: [dm_get_from_kobject] is defined in dm.c, of
    which dm-sysfs.c has the declaration only.  The spec's registry resolves
    a handle to a reference, which it acquires, or fails when the object is
    gone. *)
Definition dm_get_from_kobject (kobj : kobject) : M (option kobject) := λ σ,
  match objects σ !! kobj with
  | None => Some (None, σ)
  | Some md =>
      Some (Some kobj,
            World (<[kobj := with_holders (holders md + 1) md]> (objects σ))
                  (history σ ++ [Acquire kobj]))
  end.

(** Modelled from the spec: [dm_put] is defined in dm.c, of which
    dm-sysfs.c has the declaration only.  The spec's registry releases a
    reference. *)
Definition dm_put (md : kobject) : M () := λ σ,
  match objects σ !! md with
  | None => None
  | Some o =>
      Some ((),
            World (<[md := with_holders (holders o - 1) o]> (objects σ))
                  (history σ ++ [Release md]))
  end.

(** [dm_attr->show(md, page)] and [dm_attr->store(md, page, len)]. *)
Definition call_show (f : show_fn) (md : kobject) (page : list ascii)
  : M (Z * list ascii) := λ σ,
  match objects σ !! md with
  | None => None
  | Some o => Some (f o page, World (objects σ) (history σ ++ [ShowCall md]))
  end.

Definition call_store (f : store_fn) (md : kobject) (page : list ascii)
    (len : Z) : M Z := λ σ,
  match objects σ !! md with
  | None => None
  | Some o =>
      let '(r, o') := f o page len in
      Some (r, World (<[md := o']> (objects σ)) (history σ ++ [StoreCall md]))
  end.

(** ** The dispatchers *)

(** The result pairs the returned [ssize_t] with the page as the callback
    left it. *)
Definition dm_attr_show (kobj : kobject) (dm_attr : dm_sysfs_attr)
    (page : list ascii) : M (Z * list ascii) :=
  match show dm_attr with
  | None => mret (- EIO, page)
  | Some f =>
      md ← dm_get_from_kobject kobj;
      match md with
      | None => mret (- EINVAL, page)
      | Some md =>
          ret ← call_show f md page;
          _ ← dm_put md;
          mret ret
      end
  end.

Definition dm_attr_store (kobj : kobject) (dm_attr : dm_sysfs_attr)
    (page : list ascii) (len : Z) : M Z :=
  match store dm_attr with
  | None => mret (- EIO)
  | Some f =>
      md ← dm_get_from_kobject kobj;
      match md with
      | None => mret (- EINVAL)
      | Some md =>
          ret ← call_store f md page len;
          _ ← dm_put md;
          mret ret
      end
  end.

(** What a reader of the attribute receives: the first [ret] bytes of the
    page, when [ret] is not an error code. *)
Definition page_text (r : Z * list ascii) : list ascii :=
  take (Z.to_nat r.1) r.2.

(** * The vocabulary of the properties *)

(** The decimal digits and the minus sign are all that [%d] prints. *)
Definition d_char (c : ascii) : Prop :=
  c ∈ list_ascii_of_string "-0123456789".

(** A format whose literal pieces hold no NUL. *)
Definition fmt_clean (fmt : list conv) : Prop :=
  Forall (λ c, match c with
               | Lit s => NUL ∉ list_ascii_of_string s
               | Conv_d => True
               end) fmt.

(** The text that the iterations [i], [i + 1], ... of the loop produce; the
    bucket bounds are those the [int] variable [slot_base] takes. *)
Fixpoint lines_from (fmt : list conv) (GRAINSIZE : Z) (stats : list atomic_t)
    (todo : nat) (i : Z) : list ascii :=
  match todo with
  | O => []
  | S todo' =>
      vformat fmt [to_int (i * GRAINSIZE);
                   to_int (i * GRAINSIZE + GRAINSIZE - 1);
                   atomic_read (default 0 (stats !! Z.to_nat i))]
      ++ lines_from fmt GRAINSIZE stats todo' (i + 1)
  end.

(** What follows the text in the buffer once the loop is over. *)
Definition tail_after (todo len : nat) (rest : list ascii) : list ascii :=
  match todo with
  | O => rest
  | S _ => NUL :: drop (S len) rest
  end.

(** The line of one bucket: ["<lo>-<hi>(<unit>):<count>\n"]. *)
Definition bucket_line (unit : string) (lo hi count : Z) : list ascii :=
  list_ascii_of_string
    (pretty lo +:+ "-" +:+ pretty hi +:+ "(" +:+ unit +:+ "):"
     +:+ pretty count)
  ++ [LF].

Definition bucket_lo (GRAINSIZE : Z) (i : nat) : Z := Z.of_nat i * GRAINSIZE.
Definition bucket_hi (GRAINSIZE : Z) (i : nat) : Z :=
  bucket_lo GRAINSIZE i + GRAINSIZE - 1.

(** One line per bucket, in the order of the bucket indices. *)
Definition histogram_lines (unit : string) (GRAINSIZE : Z)
    (stats : list atomic_t) : list (list ascii) :=
  imap (λ i c, bucket_line unit (bucket_lo GRAINSIZE i) (bucket_hi GRAINSIZE i)
                 (atomic_read c)) stats.

Definition histogram_text (unit : string) (GRAINSIZE : Z)
    (stats : list atomic_t) : list ascii :=
  concat (histogram_lines unit GRAINSIZE stats).

Definition latency_fmt (unit : string) : list conv :=
  [Conv_d; Lit "-"; Conv_d; Lit ("(" +:+ unit +:+ "):"); Conv_d; Lit nl].

Inductive scale := Micro | Milli | Second.

Section scales.
Context {cfg : dm_latency_config}.

Definition scale_NR (sc : scale) : Z :=
  match sc with
  | Micro => DM_LATENCY_STATS_US_NR
  | Milli => DM_LATENCY_STATS_MS_NR
  | Second => DM_LATENCY_STATS_S_NR
  end.

Definition scale_GRAINSIZE (sc : scale) : Z :=
  match sc with
  | Micro => DM_LATENCY_STATS_US_GRAINSIZE
  | Milli => DM_LATENCY_STATS_MS_GRAINSIZE
  | Second => DM_LATENCY_STATS_S_GRAINSIZE
  end.

Definition scale_unit (sc : scale) : string :=
  match sc with
  | Micro => "us"
  | Milli => "ms"
  | Second => "s"
  end.

Definition scale_stats (sc : scale) (md : mapped_device) : list atomic_t :=
  match sc with
  | Micro => latency_stats_us md
  | Milli => latency_stats_ms md
  | Second => latency_stats_s md
  end.

Definition scale_show (sc : scale) : show_fn :=
  match sc with
  | Micro => dm_attr_io_latency_us_show
  | Milli => dm_attr_io_latency_ms_show
  | Second => dm_attr_io_latency_s_show
  end.

Definition scale_attr (sc : scale) : dm_sysfs_attr :=
  match sc with
  | Micro => dm_attr_io_latency_us
  | Milli => dm_attr_io_latency_ms
  | Second => dm_attr_io_latency_s
  end.

(** The constants of a scale are sane when the histogram has a bucket, the
    buckets have a width, and no bucket bound overflows an [int]. *)
Definition scale_ok (sc : scale) : Prop :=
  0 < scale_NR sc ∧ 0 < scale_GRAINSIZE sc
  ∧ scale_NR sc * scale_GRAINSIZE sc <= INT_MAX.

Definition config_ok : Prop :=
  scale_ok Micro ∧ scale_ok Milli ∧ scale_ok Second.

(** The histogram arrays of a device have the declared number of buckets. *)
Definition stats_wf (sc : scale) (md : mapped_device) : Prop :=
  length (scale_stats sc md) = Z.to_nat (scale_NR sc).

Definition md_wf (md : mapped_device) : Prop :=
  stats_wf Micro md ∧ stats_wf Milli md ∧ stats_wf Second md.

(** The text of a scale fits below [INT_MAX] characters, so that the [int]
    offset [ptr] can address its end. *)
Definition text_fits (sc : scale) (md : mapped_device) : Prop :=
  Z.of_nat (length (histogram_text (scale_unit sc) (scale_GRAINSIZE sc)
                      (scale_stats sc md))) <= INT_MAX.

(** All the counters of a device are zero. *)
Definition zero_stats (sc : scale) : list atomic_t :=
  replicate (Z.to_nat (scale_NR sc)) 0.

Definition reset_md (md : mapped_device) : mapped_device :=
  with_latency_stats (zero_stats Micro) (zero_stats Milli) (zero_stats Second)
    md.

End scales.

(** The device that a callback sees: the dispatcher holds one reference
    more on it. *)
Definition held (md : mapped_device) : mapped_device :=
  with_holders (holders md + 1) md.

Definition released (md : mapped_device) : mapped_device :=
  with_holders (holders md - 1) md.

(** The lines that show the given counts, bucket after bucket. *)
Definition count_lines (unit : string) (GRAINSIZE : Z) (counts : list Z)
  : list (list ascii) :=
  imap (λ i k, bucket_line unit (bucket_lo GRAINSIZE i) (bucket_hi GRAINSIZE i)
                 k) counts.

(** A line ends with its only line feed. *)
Definition one_line (l : list ascii) : Prop :=
  ∃ body, l = body ++ [LF] ∧ LF ∉ body.

(** A read of the scale [sc] of the device [md] behind [kobj] returns one
    line per bucket: as many lines as buckets, each a line of its own, line
    [i] showing the bounds of bucket [i] and the value read from its counter,
    with bounds that follow one another. *)
Definition reads_all_buckets `{cfg : dm_latency_config} (sc : scale)
    (kobj : kobject) (md : mapped_device) (page : list ascii) (σ : world)
  : Prop :=
  let G := scale_GRAINSIZE sc in
  let NR := Z.to_nat (scale_NR sc) in
  ∃ (r : Z * list ascii) (σ' : world) (lines : list (list ascii)),
    dm_attr_show kobj (scale_attr sc) page σ = Some (r, σ')
    ∧ page_text r = concat lines
    ∧ r.1 = Z.of_nat (length (concat lines))
    ∧ length lines = NR
    ∧ Forall one_line lines
    ∧ ∀ i : nat, (i < NR)%nat →
        ∃ c, scale_stats sc md !! i = Some c
          ∧ lines !! i
            = Some (bucket_line (scale_unit sc) (Z.of_nat i * G)
                      (Z.of_nat i * G + G - 1) (atomic_read c))
          ∧ bucket_hi G i + 1 = bucket_lo G (S i)
          ∧ bucket_lo G i <= bucket_hi G i.

(** A configuration and a device to run the callbacks on. *)
Definition sample_config : dm_latency_config :=
  Build_dm_latency_config 5 100 4 250 3 10.

Definition sample_md : mapped_device :=
  MappedDevice 1 (Some (list_ascii_of_string "vol0"))
    (Some (list_ascii_of_string "LVM-abc")) false
    [3; 0; 0; 1; 0] [1; 2; 3; 4] [2 ^ 31; 2 ^ 32 - 1; 7].

Definition sample_world : world := World {[ 7%nat := sample_md ]} [].

Definition fresh_us_text : string :=
  "0-99(us):0" +:+ nl +:+ "100-199(us):0" +:+ nl +:+ "200-299(us):0" +:+ nl
  +:+ "300-399(us):0" +:+ nl +:+ "400-499(us):0" +:+ nl.

(** A read of the scale [sc] prints the counter [c] of bucket [i] as the
    [int] that [c] is modulo 2^32. *)
Definition reads_count_as_int `{cfg : dm_latency_config} (sc : scale)
    (kobj : kobject) (page : list ascii) (σ : world) (i : nat) (c : atomic_t)
  : Prop :=
  let G := scale_GRAINSIZE sc in
  ∃ (r : Z * list ascii) (σ' : world) (lines : list (list ascii)),
    dm_attr_show kobj (scale_attr sc) page σ = Some (r, σ')
    ∧ page_text r = concat lines
    ∧ lines !! i
      = Some (list_ascii_of_string
                (pretty (bucket_lo G i) +:+ "-" +:+ pretty (bucket_hi G i)
                 +:+ "(" +:+ scale_unit sc +:+ "):"
                 +:+ pretty (atomic_read c)) ++ [LF])
    ∧ in_int (atomic_read c)
    ∧ atomic_read c mod 2 ^ 32 = c mod 2 ^ 32
    ∧ (0 <= c < 2 ^ 31 → atomic_read c = c)
    ∧ (2 ^ 31 <= c < 2 ^ 32 →
         atomic_read c = c - 2 ^ 32
         ∧ atomic_read c < 0
         ∧ pretty (atomic_read c) = "-" +:+ pretty (2 ^ 32 - c)).

(** A write of io_latency_reset returns [len] and leaves the device behind
    [kobj] with every counter at zero, and everything else as it was. *)
Definition reset_clears `{cfg : dm_latency_config} (kobj : kobject)
    (md : mapped_device) (page : list ascii) (len : Z) (σ : world) : Prop :=
  ∃ σ' md',
    dm_attr_store kobj dm_attr_io_latency_reset page len σ = Some (len, σ')
    ∧ objects σ' !! kobj = Some md'
    ∧ (∀ sc i, (i < Z.to_nat (scale_NR sc))%nat →
         scale_stats sc md' !! i = Some 0)
    ∧ (∀ sc, length (scale_stats sc md') = Z.to_nat (scale_NR sc))
    ∧ holders md' = holders md
    ∧ md_name md' = md_name md ∧ md_uuid md' = md_uuid md
    ∧ md_suspended md' = md_suspended md
    ∧ (∀ k, k ≠ kobj → objects σ' !! k = objects σ !! k).

Definition all_text_fit `{cfg : dm_latency_config} (md : mapped_device)
  : Prop :=
  text_fits Micro md ∧ text_fits Milli md ∧ text_fits Second md.

(** A second reset changes nothing, and a read after a reset shows the
    count 0 in every line. *)
Definition reset_twice_as_once `{cfg : dm_latency_config} (kobj : kobject)
    (md : mapped_device) (page1 : list ascii) (len1 : Z)
    (page2 : list ascii) (len2 : Z) (σ : world) : Prop :=
  ∃ r1 σ1 r2 σ2,
    dm_attr_store kobj dm_attr_io_latency_reset page1 len1 σ = Some (r1, σ1)
    ∧ dm_attr_store kobj dm_attr_io_latency_reset page2 len2 σ1
      = Some (r2, σ2)
    ∧ objects σ1 !! kobj = Some (reset_md md)
    ∧ objects σ2 = objects σ1
    ∧ ∀ (sc : scale) (page : list ascii),
        ∃ (r : Z * list ascii) (σ3 : world),
          dm_attr_show kobj (scale_attr sc) page σ1 = Some (r, σ3)
          ∧ page_text r
            = concat (count_lines (scale_unit sc) (scale_GRAINSIZE sc)
                        (replicate (Z.to_nat (scale_NR sc)) 0)).

Definition with_scale_stats (sc : scale) (stats : list atomic_t)
    (md : mapped_device) : mapped_device :=
  match sc with
  | Micro =>
      with_latency_stats stats (latency_stats_ms md) (latency_stats_s md) md
  | Milli =>
      with_latency_stats (latency_stats_us md) stats (latency_stats_s md) md
  | Second =>
      with_latency_stats (latency_stats_us md) (latency_stats_ms md) stats md
  end.

(** Modelled from the spec: the observer that counts the I/Os of a latency
    range is outside dm-sysfs.c.  The spec has it increment the
    counter of one bucket; [k] such increments add [k] to the 32-bit cell. *)
Definition count_io `{cfg : dm_latency_config} (sc : scale) (i : nat) (k : Z)
    (md : mapped_device) : mapped_device :=
  with_scale_stats sc (alter (atomic_add k) i (scale_stats sc md)) md.

(** A read shows [k] in line [i] and 0 in the other lines. *)
Definition increment_shows `{cfg : dm_latency_config} (sc : scale)
    (kobj : kobject) (page : list ascii) (σ : world) (i : nat) (k : Z)
  : Prop :=
  ∃ (r : Z * list ascii) (σ' : world),
    dm_attr_show kobj (scale_attr sc) page σ = Some (r, σ')
    ∧ page_text r
      = concat (count_lines (scale_unit sc) (scale_GRAINSIZE sc)
                  (<[i := k]> (replicate (Z.to_nat (scale_NR sc)) 0))).

Definition zero_md : mapped_device :=
  MappedDevice 1 (Some (list_ascii_of_string "vol0"))
    (Some (list_ascii_of_string "LVM-abc")) false
    (replicate 5 0) (replicate 4 0) (replicate 3 0).

(** What a dispatcher call adds to the history: nothing, or one acquisition,
    the callback, and one release, in this order. *)
Definition paired_calls (kobj : kobject) (call : event) (σ σ' : world)
  : Prop :=
  history σ' = history σ
  ∨ (is_Some (objects σ !! kobj)
     ∧ history σ' = history σ ++ [Acquire kobj; call; Release kobj]).

(** A read and a write of the attribute [a] through the handle [kobj] both
    return; each adds to the history nothing or one acquisition, the callback
    and one release; the read changes no device, and the write leaves the
    device as the store callback did, with the reference it took given
    back. *)
Definition dispatch_paired (a : dm_sysfs_attr) (kobj : kobject)
    (page : list ascii) (len : Z) (σ : world) : Prop :=
  (∃ (r : Z * list ascii) (σ' : world),
     dm_attr_show kobj a page σ = Some (r, σ')
     ∧ paired_calls kobj (ShowCall kobj) σ σ'
     ∧ objects σ' = objects σ
     ∧ ∀ f md, show a = Some f → objects σ !! kobj = Some md →
         r = f (held md) page
         ∧ history σ' = history σ ++ [Acquire kobj; ShowCall kobj; Release kobj])
  ∧ (∃ (r : Z) (σ' : world),
       dm_attr_store kobj a page len σ = Some (r, σ')
       ∧ paired_calls kobj (StoreCall kobj) σ σ'
       ∧ (history σ' = history σ → σ' = σ)
       ∧ ∀ g md, store a = Some g → objects σ !! kobj = Some md →
           r = (g (held md) page len).1
           ∧ objects σ' = <[kobj := released (g (held md) page len).2]>
                            (objects σ)
           ∧ history σ'
             = history σ ++ [Acquire kobj; StoreCall kobj; Release kobj]).

(** ** Vocabulary of the further properties *)

(** The two attributes that identify a device. *)
Inductive ident := Name | Uuid.

Definition ident_attr (what : ident) : dm_sysfs_attr :=
  match what with
  | Name => dm_attr_name
  | Uuid => dm_attr_uuid
  end.

Definition ident_show (what : ident) : show_fn :=
  match what with
  | Name => dm_attr_name_show
  | Uuid => dm_attr_uuid_show
  end.

Definition ident_value (what : ident) (md : mapped_device)
  : option (list ascii) :=
  match what with
  | Name => md_name md
  | Uuid => md_uuid md
  end.

(** A call of the file system into the two dispatchers. *)
Inductive request :=
  | Read (kobj : kobject) (a : dm_sysfs_attr) (page : list ascii)
  | Write (kobj : kobject) (a : dm_sysfs_attr) (page : list ascii) (len : Z).

Definition request_attr (rq : request) : dm_sysfs_attr :=
  match rq with
  | Read _ a _ => a
  | Write _ a _ _ => a
  end.

Definition serve (rq : request) : M Z :=
  match rq with
  | Read kobj a page => r ← dm_attr_show kobj a page; mret r.1
  | Write kobj a page len => dm_attr_store kobj a page len
  end.

Fixpoint serve_all (rqs : list request) : M (list Z) :=
  match rqs with
  | [] => mret []
  | rq :: rqs' => r ← serve rq; rs ← serve_all rqs'; mret (r :: rs)
  end.

(** Two states of a device that differ in the values of the counters at
    most. *)
Definition same_shape (md md' : mapped_device) : Prop :=
  holders md' = holders md
  ∧ md_name md' = md_name md
  ∧ md_uuid md' = md_uuid md
  ∧ md_suspended md' = md_suspended md
  ∧ length (latency_stats_us md') = length (latency_stats_us md)
  ∧ length (latency_stats_ms md') = length (latency_stats_ms md)
  ∧ length (latency_stats_s md') = length (latency_stats_s md).

(** The same devices live in both worlds, each with the same shape. *)
Definition shape_preserved (σ σ' : world) : Prop :=
  ∀ k, option_Forall2 same_shape (objects σ !! k) (objects σ' !! k).

(** A read of the name or of the uuid returns the string [s] and a line
    feed, leaves the page past the text and its NUL alone, and changes no
    device. *)
Definition reads_ident (what : ident) (kobj : kobject) (page : list ascii)
    (σ : world) (s : list ascii) : Prop :=
  ∃ (r : Z * list ascii) (σ' : world),
    dm_attr_show kobj (ident_attr what) page σ = Some (r, σ')
    ∧ r.1 = Z.of_nat (length s) + 1
    ∧ page_text r = s ++ [LF]
    ∧ r.2 !! S (length s) = Some NUL
    ∧ drop (S (S (length s))) r.2 = drop (S (S (length s))) page
    ∧ objects σ' = objects σ.

(** Two reads of a latency attribute into pages of different content return
    the same text, and the read writes nothing past the NUL that ends it. *)
Definition reads_regardless_of_page `{cfg : dm_latency_config} (sc : scale)
    (kobj : kobject) (page1 page2 : list ascii) (σ : world) : Prop :=
  ∃ (r1 r2 : Z * list ascii) (σ1 σ2 : world),
    dm_attr_show kobj (scale_attr sc) page1 σ = Some (r1, σ1)
    ∧ dm_attr_show kobj (scale_attr sc) page2 σ = Some (r2, σ2)
    ∧ r1.1 = r2.1
    ∧ page_text r1 = page_text r2
    ∧ r1.2 !! Z.to_nat r1.1 = Some NUL
    ∧ drop (S (Z.to_nat r1.1)) r1.2 = drop (S (Z.to_nat r1.1)) page1.

(** A world whose only device has neither a name nor a uuid. *)
Definition nameless_md : mapped_device :=
  MappedDevice 1 None None false [] [] [].

Definition nameless_world : world := World {[ 4%nat := nameless_md ]} [].

(** A latency read returns between 9 and 40 characters per bucket. *)
Definition reads_bounded_text `{cfg : dm_latency_config} (sc : scale)
    (kobj : kobject) (page : list ascii) (σ : world) : Prop :=
  ∃ (r : Z * list ascii) (σ' : world),
    dm_attr_show kobj (scale_attr sc) page σ = Some (r, σ')
    ∧ 9 * scale_NR sc <= r.1 <= 40 * scale_NR sc
    ∧ Z.of_nat (length (page_text r)) = r.1.

(** Serving the requests one after the other succeeds with one result each
    and keeps the devices and their shapes. *)
Definition served_in_shape (rqs : list request) (σ : world) : Prop :=
  ∃ (rs : list Z) (σ' : world),
    serve_all rqs σ = Some (rs, σ')
    ∧ length rs = length rqs
    ∧ shape_preserved σ σ'.

(** * Properties *)

Example sprintf_sample :
  sprintf [] 0 [Conv_d; Lit "-"; Conv_d; Lit "(us):"; Conv_d; Lit nl] [0; 99; -7]
  = (12, list_ascii_of_string "0-99(us):-7" ++ [LF; NUL]).
Proof. vm_compute. reflexivity. Qed.

(** ** Integers *)

(** Closes a goal about the range of an integer type. *)
Local Ltac int_range :=
  unfold in_int, INT_MIN, INT_MAX, SSIZE_MAX in *; lia.

Lemma to_int_id z : in_int z → to_int z = z.
Proof.
  unfold in_int, INT_MIN, INT_MAX, to_int. intros Hz.
  rewrite Z.mod_small by lia. lia.
Qed.

Lemma to_int_add_l a b : to_int (to_int a + b) = to_int (a + b).
Proof.
  unfold to_int. f_equal.
  replace ((a + 2 ^ 31) mod 2 ^ 32 - 2 ^ 31 + b + 2 ^ 31)
    with ((a + 2 ^ 31) mod 2 ^ 32 + b) by lia.
  rewrite Zplus_mod_idemp_l. f_equal. lia.
Qed.

Lemma to_int_range z : in_int (to_int z).
Proof.
  unfold in_int, INT_MIN, INT_MAX, to_int.
  pose proof (Z.mod_pos_bound (z + 2 ^ 31) (2 ^ 32)). lia.
Qed.

Lemma to_int_congr z : (to_int z) mod 2 ^ 32 = z mod 2 ^ 32.
Proof.
  unfold to_int.
  rewrite <- (Zminus_mod_idemp_l ((z + 2 ^ 31) mod 2 ^ 32)).
  rewrite Z.mod_mod by lia. rewrite Zminus_mod_idemp_l. f_equal. lia.
Qed.

Lemma to_ssize_t_id z : - 2 ^ 63 <= z <= SSIZE_MAX → to_ssize_t z = z.
Proof.
  unfold SSIZE_MAX, to_ssize_t. intros Hz.
  rewrite Z.mod_small by lia. lia.
Qed.

(** ** C strings *)

Lemma strlen_terminated (s rest : list ascii) :
  NUL ∉ s → strlen (s ++ NUL :: rest) = length s.
Proof.
  induction s as [|c s IH]; intros Hs; cbn [strlen app].
  - by destruct (decide (NUL = NUL)).
  - rewrite not_elem_of_cons in Hs. destruct Hs as [Hc Hs].
    destruct (decide (c = NUL)) as [->|_]; [done|]. by rewrite IH.
Qed.

Lemma store_bytes_after (text rest bs : list ascii) :
  store_bytes (text ++ rest) (length text) bs
  = text ++ bs ++ drop (length bs) rest.
Proof.
  unfold store_bytes.
  rewrite resize_app by done. by rewrite drop_app_add.
Qed.

Local Ltac d_char_closed :=
  repeat first [apply Forall_nil_2 | apply Forall_cons_2];
  unfold d_char; vm_compute list_ascii_of_string; set_solver.

Lemma pretty_N_char_d x : d_char (pretty_N_char x).
Proof. unfold pretty_N_char. repeat case_match; d_char_closed. Qed.

Lemma pretty_N_go_d x s :
  Forall d_char (list_ascii_of_string s) →
  Forall d_char (list_ascii_of_string (pretty_N_go x s)).
Proof.
  revert s. induction (N.lt_wf_0 x) as [x _ IH]; intros s Hs.
  destruct (decide (x = 0)%N) as [->|Hx]; [done|].
  rewrite pretty_N_go_step by lia. apply IH.
  - apply N.div_lt; lia.
  - simpl. constructor; [apply pretty_N_char_d | done].
Qed.

Lemma pretty_N_d (x : N) : Forall d_char (list_ascii_of_string (pretty x)).
Proof.
  unfold pretty, pretty_N. case_decide.
  - d_char_closed.
  - apply pretty_N_go_d. constructor.
Qed.

Lemma pretty_Z_d (z : Z) : Forall d_char (list_ascii_of_string (pretty z)).
Proof.
  destruct z as [|p|p]; unfold pretty, pretty_Z.
  - d_char_closed.
  - apply (pretty_N_d (N.pos p)).
  - simpl. constructor; [d_char_closed | apply (pretty_N_d (N.pos p))].
Qed.

Lemma d_char_not_NUL c : d_char c → c ≠ NUL.
Proof.
  unfold d_char. intros Hc ->. revert Hc.
  by apply (bool_decide_unpack _).
Qed.

Lemma d_char_not_LF c : d_char c → c ≠ LF.
Proof.
  unfold d_char. intros Hc ->. revert Hc.
  by apply (bool_decide_unpack _).
Qed.

Lemma list_ascii_of_string_app (a b : string) :
  list_ascii_of_string (a +:+ b)
  = list_ascii_of_string a ++ list_ascii_of_string b.
Proof. induction a as [|c a IH]; simpl; [done | by rewrite IH]. Qed.

(** ** Formatting *)

Lemma pretty_Z_no_NUL (z : Z) : NUL ∉ list_ascii_of_string (pretty z).
Proof.
  intros Hin. pose proof (pretty_Z_d z) as Hd.
  rewrite Forall_forall in Hd. by apply (d_char_not_NUL _ (Hd _ Hin)).
Qed.

Lemma pretty_Z_no_LF (z : Z) : LF ∉ list_ascii_of_string (pretty z).
Proof.
  intros Hin. pose proof (pretty_Z_d z) as Hd.
  rewrite Forall_forall in Hd. by apply (d_char_not_LF _ (Hd _ Hin)).
Qed.

Lemma vformat_no_NUL fmt args : fmt_clean fmt → NUL ∉ vformat fmt args.
Proof.
  intros Hfmt. revert args.
  induction Hfmt as [|[s|] fmt Hc _ IH]; intros args; simpl.
  - set_solver.
  - rewrite elem_of_app. intros [?|?]; [done | by eapply IH].
  - destruct args as [|a args]; [done|].
    rewrite elem_of_app. intros [?|?]; [by eapply pretty_Z_no_NUL | by eapply IH].
Qed.

(** ** The latency loop *)

Lemma lines_from_no_NUL fmt G stats todo i :
  fmt_clean fmt → NUL ∉ lines_from fmt G stats todo i.
Proof.
  intros Hfmt. revert i. induction todo as [|todo IH]; intros i; simpl.
  - set_solver.
  - rewrite elem_of_app.
    intros [?|?]; [by eapply vformat_no_NUL | by eapply IH].
Qed.

Lemma latency_show_loop_spec fmt G stats todo : ∀ i text rest,
  0 <= i → i + Z.of_nat todo <= INT_MAX →
  Z.of_nat (length text + length (lines_from fmt G stats todo i)) <= INT_MAX →
  latency_show_loop fmt G stats todo i (to_int (i * G))
    (Z.of_nat (length text)) (text ++ rest)
  = text ++ lines_from fmt G stats todo i
    ++ tail_after todo (length (lines_from fmt G stats todo i)) rest.
Proof.
  induction todo as [|todo IH]; intros i text rest Hi Hn Hfit.
  { simpl. done. }
  cbn [latency_show_loop lines_from] in *. unfold sprintf.
  set (s := vformat fmt _) in *.
  assert (Hs : vformat fmt
                 [to_int (i * G); to_int (to_int (to_int (i * G) + G) - 1);
                  atomic_read (default 0 (stats !! Z.to_nat i))] = s).
  { subst s. do 3 f_equal. rewrite to_int_add_l.
    replace (to_int (i * G + G) - 1) with (to_int (i * G + G) + -1) by lia.
    by rewrite to_int_add_l. }
  rewrite Hs. rewrite length_app in Hfit.
  unfold INT_MAX in *.
  rewrite (to_int_id (Z.of_nat (length s)))
    by int_range.
  rewrite decide_False by lia.
  rewrite Nat2Z.id, store_bytes_after.
  rewrite to_int_add_l.
  rewrite (to_int_id (i + 1)) by int_range.
  rewrite (to_int_id (Z.of_nat (length text) + Z.of_nat (length s)))
    by int_range.
  replace (i * G + G) with ((i + 1) * G) by lia.
  replace (Z.of_nat (length text) + Z.of_nat (length s))
    with (Z.of_nat (length (text ++ s))) by (rewrite length_app; lia).
  replace (text ++ (s ++ [NUL]) ++ drop (length (s ++ [NUL])) rest)
    with ((text ++ s) ++ NUL :: drop (S (length s)) rest).
  2:{ rewrite <- !(assoc_L (++)). simpl. do 3 f_equal.
      rewrite length_app. simpl. f_equal. lia. }
  rewrite IH; [| lia | lia | rewrite length_app; lia].
  rewrite <- !(assoc_L (++)). do 2 f_equal.
  destruct todo as [|todo]; cbn [tail_after].
  - cbn [lines_from]. by rewrite (right_id_L [] (++)).
  - cbn [drop]. rewrite drop_drop, length_app. by do 2 f_equal.
Qed.

(** ** The histogram as text *)

Lemma vformat_bucket_line unit lo hi count :
  vformat (latency_fmt unit) [lo; hi; count] = bucket_line unit lo hi count.
Proof.
  unfold bucket_line, latency_fmt. cbn [vformat].
  rewrite !list_ascii_of_string_app, (right_id_L [] (++)).
  by rewrite <- !(assoc_L (++)).
Qed.

Lemma lines_from_histogram unit G stats : ∀ l i,
  0 < G → drop i stats = l →
  (Z.of_nat i + Z.of_nat (length l)) * G <= INT_MAX →
  lines_from (latency_fmt unit) G stats (length l) (Z.of_nat i)
  = concat (imap (λ k c, bucket_line unit (bucket_lo G (i + k))
                           (bucket_hi G (i + k)) (atomic_read c)) l).
Proof.
  induction l as [|c l IH]; intros i HG Hdrop Hmax; [done|].
  assert (Hc : stats !! i = Some c).
  { rewrite <- (Nat.add_0_r i), <- lookup_drop. by rewrite Hdrop. }
  assert (Hl : drop (S i) stats = l).
  { rewrite (drop_S _ _ _ Hc) in Hdrop. by injection Hdrop. }
  cbn [length lines_from]. rewrite imap_cons. cbn [concat].
  rewrite Nat2Z.id, Hc. cbn [default].
  unfold INT_MAX in Hmax. cbn [length] in Hmax.
  rewrite !to_int_id by (unfold in_int, INT_MIN, INT_MAX; nia).
  rewrite vformat_bucket_line.
  unfold bucket_hi at 1, bucket_lo at 1 2. rewrite Nat.add_0_r. f_equal.
  replace (Z.of_nat i + 1) with (Z.of_nat (S i)) by lia.
  rewrite IH; [| done | done | unfold INT_MAX; lia].
  f_equal. apply imap_ext. intros k x _. unfold compose.
  replace (i + S k)%nat with (S i + k)%nat by lia. done.
Qed.

Lemma latency_fmt_clean unit :
  NUL ∉ list_ascii_of_string unit → fmt_clean (latency_fmt unit).
Proof.
  intros Hu. unfold latency_fmt, fmt_clean. repeat constructor.
  - by apply (bool_decide_unpack _).
  - rewrite !list_ascii_of_string_app, !elem_of_app.
    intros [H|[H|H]]; [revert H | done | revert H];
      by apply (bool_decide_unpack _).
  - by apply (bool_decide_unpack _).
Qed.

(** What a latency callback returns and leaves in the buffer, for a
    histogram of [NR] buckets whose text an [int] offset can address. *)
Lemma latency_show_histogram unit NR G stats buf :
  NUL ∉ list_ascii_of_string unit →
  0 < NR → 0 < G → NR * G <= INT_MAX →
  length stats = Z.to_nat NR →
  Z.of_nat (length (histogram_text unit G stats)) <= INT_MAX →
  latency_show (latency_fmt unit) NR G stats buf
  = (Z.of_nat (length (histogram_text unit G stats)),
     histogram_text unit G stats
     ++ NUL :: drop (S (length (histogram_text unit G stats))) buf).
Proof.
  intros Hu HNR HG Hmax Hlen Hfit. unfold latency_show.
  assert (Hlines : lines_from (latency_fmt unit) G stats (Z.to_nat NR) 0
                   = histogram_text unit G stats).
  { rewrite <- Hlen. apply (lines_from_histogram unit G stats stats 0%nat).
    - done.
    - done.
    - rewrite Hlen. lia. }
  pose proof (latency_show_loop_spec (latency_fmt unit) G stats (Z.to_nat NR)
                0 [] buf) as Hloop.
  cbn [length app Nat.add] in Hloop. rewrite Hlines in Hloop.
  change (to_int (0 * G)) with 0 in Hloop. change (Z.of_nat 0) with 0 in Hloop.
  rewrite Hloop; [| lia | unfold INT_MAX in *; nia | done].
  destruct (Z.to_nat NR) as [|n] eqn:Hn; [lia|]. cbn [tail_after].
  rewrite strlen_terminated.
  - rewrite to_ssize_t_id; [done|]. unfold SSIZE_MAX, INT_MAX in *. lia.
  - rewrite <- Hlines. by apply lines_from_no_NUL, latency_fmt_clean.
Qed.

(** ** The three scales *)

Lemma config_ok_scale `{cfg : dm_latency_config} sc : config_ok → scale_ok sc.
Proof. intros (?&?&?). by destruct sc. Qed.

Lemma md_wf_scale `{cfg : dm_latency_config} sc md : md_wf md → stats_wf sc md.
Proof. intros (?&?&?). by destruct sc. Qed.

Lemma scale_unit_no_NUL sc : NUL ∉ list_ascii_of_string (scale_unit sc).
Proof. destruct sc; by apply (bool_decide_unpack _). Qed.

Lemma scale_unit_no_LF sc : LF ∉ list_ascii_of_string (scale_unit sc).
Proof. destruct sc; by apply (bool_decide_unpack _). Qed.

Lemma scale_attr_show `{cfg : dm_latency_config} sc :
  show (scale_attr sc) = Some (scale_show sc).
Proof. by destruct sc. Qed.

Lemma scale_show_eq `{cfg : dm_latency_config} sc md buf :
  scale_show sc md buf
  = latency_show (latency_fmt (scale_unit sc)) (scale_NR sc)
      (scale_GRAINSIZE sc) (scale_stats sc md) buf.
Proof. by destruct sc. Qed.

Lemma scale_show_text `{cfg : dm_latency_config} sc md buf :
  scale_ok sc → stats_wf sc md → text_fits sc md →
  let text := histogram_text (scale_unit sc) (scale_GRAINSIZE sc)
                (scale_stats sc md) in
  scale_show sc md buf
  = (Z.of_nat (length text), text ++ NUL :: drop (S (length text)) buf).
Proof.
  intros (HNR & HG & Hmax) Hwf Hfit text. rewrite scale_show_eq.
  by apply latency_show_histogram; [apply scale_unit_no_NUL|..].
Qed.

Lemma page_text_terminated (text rest : list ascii) :
  page_text (Z.of_nat (length text), text ++ rest) = text.
Proof. unfold page_text. cbn [fst snd]. by rewrite Nat2Z.id, take_app_length. Qed.

(** ** The reset loop *)

Lemma latency_reset_loop_spec todo : ∀ i (pre stats : list atomic_t),
  length pre = i → length stats = todo →
  Z.of_nat i + Z.of_nat todo <= INT_MAX →
  latency_reset_loop todo (Z.of_nat i) (pre ++ stats)
  = pre ++ replicate todo 0.
Proof.
  induction todo as [|todo IH]; intros i pre stats Hpre Hlen Hmax.
  { destruct stats; [done | discriminate]. }
  destruct stats as [|c stats]; [discriminate|].
  cbn [latency_reset_loop replicate]. rewrite Nat2Z.id.
  unfold INT_MAX in Hmax.
  rewrite to_int_id by int_range.
  replace (<[i:=atomic_set 0]> (pre ++ c :: stats))
    with ((pre ++ [0]) ++ stats).
  2:{ rewrite <- Hpre, insert_app_r_alt, Nat.sub_diag by done.
      by rewrite <- (assoc_L (++)). }
  replace (Z.of_nat i + 1) with (Z.of_nat (S i)) by lia.
  rewrite (IH (S i)).
  - by rewrite <- (assoc_L (++)).
  - rewrite length_app. simpl. lia.
  - by injection Hlen.
  - unfold INT_MAX. lia.
Qed.

Lemma reset_store_spec `{cfg : dm_latency_config} md buf len :
  config_ok → md_wf md →
  dm_attr_io_latency_reset_store md buf len = (to_ssize_t len, reset_md md).
Proof.
  intros (Hus & Hms & Hs) (Wus & Wms & Ws).
  unfold dm_attr_io_latency_reset_store, reset_md, zero_stats.
  unfold scale_ok, stats_wf in *. cbn [scale_NR scale_GRAINSIZE scale_stats] in *.
  pose proof (λ n l, latency_reset_loop_spec n 0%nat [] l) as Hloop.
  cbn [app length] in Hloop. change (Z.of_nat 0) with 0 in Hloop.
  rewrite !Hloop; [done | done | ..]; try done; unfold INT_MAX in *; nia.
Qed.

(** ** The dispatchers *)

Lemma with_holders_put_get md :
  with_holders (holders (with_holders (holders md + 1) md) - 1)
    (with_holders (holders md + 1) md) = md.
Proof.
  destruct md. unfold with_holders. cbn. f_equal. lia.
Qed.

Lemma released_held md : released (held md) = md.
Proof. apply with_holders_put_get. Qed.

Lemma dm_attr_show_unsupported kobj a page σ :
  show a = None → dm_attr_show kobj a page σ = Some ((- EIO, page), σ).
Proof. unfold dm_attr_show. by intros ->. Qed.

Lemma dm_attr_store_unsupported kobj a page len σ :
  store a = None → dm_attr_store kobj a page len σ = Some (- EIO, σ).
Proof. unfold dm_attr_store. by intros ->. Qed.

Lemma dm_attr_show_gone kobj a f page σ :
  show a = Some f → objects σ !! kobj = None →
  dm_attr_show kobj a page σ = Some ((- EINVAL, page), σ).
Proof.
  unfold dm_attr_show. intros -> Hk.
  unfold mbind, M_bind, dm_get_from_kobject. by rewrite Hk.
Qed.

Lemma dm_attr_store_gone kobj a f page len σ :
  store a = Some f → objects σ !! kobj = None →
  dm_attr_store kobj a page len σ = Some (- EINVAL, σ).
Proof.
  unfold dm_attr_store. intros -> Hk.
  unfold mbind, M_bind, dm_get_from_kobject. by rewrite Hk.
Qed.

Lemma dm_attr_show_resolved kobj a f page σ md :
  show a = Some f → objects σ !! kobj = Some md →
  dm_attr_show kobj a page σ
  = Some (f (held md) page,
          World (objects σ)
            (history σ ++ [Acquire kobj; ShowCall kobj; Release kobj])).
Proof.
  unfold dm_attr_show. intros -> Hk.
  unfold mbind, M_bind, dm_get_from_kobject. rewrite Hk.
  unfold call_show. cbn [objects history]. rewrite lookup_insert_eq.
  unfold dm_put. cbn [objects history]. rewrite lookup_insert_eq.
  unfold mret, M_ret. do 3 f_equal.
  - rewrite insert_insert_eq. fold (held md). fold (released (held md)).
    rewrite released_held. by apply insert_id.
  - by rewrite <- !(assoc_L (++)).
Qed.

Lemma dm_attr_store_resolved kobj a f page len σ md :
  store a = Some f → objects σ !! kobj = Some md →
  dm_attr_store kobj a page len σ
  = Some ((f (held md) page len).1,
          World (<[kobj := released (f (held md) page len).2]> (objects σ))
            (history σ ++ [Acquire kobj; StoreCall kobj; Release kobj])).
Proof.
  unfold dm_attr_store. intros -> Hk.
  unfold mbind, M_bind, dm_get_from_kobject. rewrite Hk.
  unfold call_store. cbn [objects history]. rewrite lookup_insert_eq.
  fold (held md). destruct (f (held md) page len) as [r o'] eqn:Hf.
  unfold dm_put. cbn [objects history fst snd]. rewrite lookup_insert_eq.
  unfold mret, M_ret. do 3 f_equal.
  - by rewrite !insert_insert_eq.
  - by rewrite <- !(assoc_L (++)).
Qed.

Lemma scale_stats_held `{cfg : dm_latency_config} sc md :
  scale_stats sc (held md) = scale_stats sc md.
Proof. by destruct sc. Qed.

(** Reading a latency attribute of a live device: the dispatcher returns
    the length of the histogram text and leaves the text in the page. *)
Lemma latency_read `{cfg : dm_latency_config} sc kobj md page σ :
  scale_ok sc → stats_wf sc md → text_fits sc md →
  objects σ !! kobj = Some md →
  let text := histogram_text (scale_unit sc) (scale_GRAINSIZE sc)
                (scale_stats sc md) in
  dm_attr_show kobj (scale_attr sc) page σ
  = Some ((Z.of_nat (length text),
           text ++ NUL :: drop (S (length text)) page),
          World (objects σ)
            (history σ ++ [Acquire kobj; ShowCall kobj; Release kobj])).
Proof.
  intros Hok Hwf Hfit Hk text.
  rewrite (dm_attr_show_resolved _ _ _ _ _ _ (scale_attr_show sc) Hk).
  rewrite scale_show_text.
  - by rewrite scale_stats_held.
  - done.
  - unfold stats_wf. by rewrite scale_stats_held.
  - unfold text_fits. by rewrite scale_stats_held.
Qed.

(** ** Buckets and their lines *)

Lemma histogram_lines_counts unit G stats :
  histogram_lines unit G stats = count_lines unit G (atomic_read <$> stats).
Proof. unfold histogram_lines, count_lines. by rewrite imap_fmap. Qed.

Lemma histogram_lines_length unit G stats :
  length (histogram_lines unit G stats) = length stats.
Proof. apply length_imap. Qed.

Lemma histogram_lines_lookup unit G stats i c :
  stats !! i = Some c →
  histogram_lines unit G stats !! i
  = Some (bucket_line unit (Z.of_nat i * G) (Z.of_nat i * G + G - 1)
            (atomic_read c)).
Proof.
  intros Hc. unfold histogram_lines. by rewrite list_lookup_imap, Hc.
Qed.

Lemma bucket_line_one_line unit lo hi count :
  LF ∉ list_ascii_of_string unit → one_line (bucket_line unit lo hi count).
Proof.
  intros Hu. eexists. split; [reflexivity|].
  rewrite !list_ascii_of_string_app, !elem_of_app.
  pose proof (pretty_Z_no_LF lo). pose proof (pretty_Z_no_LF hi).
  pose proof (pretty_Z_no_LF count).
  assert (LF ∉ list_ascii_of_string "-") by by apply (bool_decide_unpack _).
  assert (LF ∉ list_ascii_of_string "(") by by apply (bool_decide_unpack _).
  assert (LF ∉ list_ascii_of_string "):") by by apply (bool_decide_unpack _).
  tauto.
Qed.

Lemma histogram_lines_one_line unit G stats :
  LF ∉ list_ascii_of_string unit →
  Forall one_line (histogram_lines unit G stats).
Proof.
  intros Hu. apply Forall_forall. intros l Hl.
  apply elem_of_lookup_imap_1 in Hl as (i & c & -> & _).
  by apply bucket_line_one_line.
Qed.

(** ** How long the text can get *)

Lemma pretty_N_go_length (k : nat) : ∀ (x : N) (s : string),
  (x < 10 ^ N.of_nat k)%N →
  (length (list_ascii_of_string (pretty_N_go x s))
   ≤ length (list_ascii_of_string s) + k)%nat.
Proof.
  induction k as [|k IH]; intros x s Hx.
  - assert (x = 0%N) as -> by (cbn in Hx; lia).
    rewrite pretty_N_go_0. lia.
  - destruct (decide (x = 0)%N) as [->|Hne].
    { rewrite pretty_N_go_0. lia. }
    rewrite pretty_N_go_step by lia.
    etrans; [apply IH|cbn [list_ascii_of_string length]; lia].
    rewrite Nat2N.inj_succ, N.pow_succ_r' in Hx.
    apply N.Div0.div_lt_upper_bound. lia.
Qed.

Lemma pretty_int_length (z : Z) :
  in_int z → (length (list_ascii_of_string (pretty z)) ≤ 11)%nat.
Proof.
  unfold in_int, INT_MIN, INT_MAX. intros Hz.
  destruct z as [|p|p]; unfold pretty, pretty_Z.
  - cbn. lia.
  - unfold pretty, pretty_positive, pretty, pretty_N.
    rewrite decide_False by done.
    etrans; [apply (pretty_N_go_length 10)|cbn; lia]. cbn. lia.
  - cbn [append list_ascii_of_string length].
    unfold pretty, pretty_positive, pretty, pretty_N.
    rewrite decide_False by done.
    apply le_n_S.
    etrans; [apply (pretty_N_go_length 10)|cbn; lia]. cbn. lia.
Qed.

Lemma bucket_line_length sc lo hi count :
  in_int lo → in_int hi → in_int count →
  (length (bucket_line (scale_unit sc) lo hi count) ≤ 40)%nat.
Proof.
  intros Hlo Hhi Hcount. unfold bucket_line.
  rewrite length_app, !list_ascii_of_string_app, !length_app.
  pose proof (pretty_int_length lo Hlo).
  pose proof (pretty_int_length hi Hhi).
  pose proof (pretty_int_length count Hcount).
  destruct sc; cbn; lia.
Qed.

Lemma concat_length_bound {A} (n : nat) (ls : list (list A)) :
  Forall (λ l, (length l ≤ n)%nat) ls →
  (length (concat ls) ≤ n * length ls)%nat.
Proof.
  induction 1 as [|l ls Hl _ IH]; cbn [concat length]; [lia|].
  rewrite length_app. lia.
Qed.

(** A histogram of at most INT_MAX / 40 buckets has a text that fits. *)
Lemma text_fits_small `{cfg : dm_latency_config} sc md :
  scale_ok sc → stats_wf sc md → 40 * scale_NR sc <= INT_MAX →
  text_fits sc md.
Proof.
  intros (HNR & HG & Hmax) Hwf Hsmall. unfold text_fits, histogram_text.
  etrans; [apply inj_le, (concat_length_bound 40)|].
  - apply Forall_forall. intros l Hl.
    apply elem_of_lookup_imap_1 in Hl as (i & c & -> & Hc).
    apply lookup_lt_Some in Hc. unfold stats_wf in Hwf. rewrite Hwf in Hc.
    unfold INT_MAX in *.
    apply bucket_line_length; [| |apply to_int_range];
      unfold bucket_hi, bucket_lo, in_int, INT_MIN, INT_MAX; nia.
  - rewrite histogram_lines_length, Hwf. lia.
Qed.

(** C1: for each of the three latency attributes, a read on a resolved
    device returns exactly NR lines, one per bucket in ascending bucket
    order; line i is "<lo>-<hi>(<unit>):<count>\n" with lo = i * GRAINSIZE,
    hi = lo + GRAINSIZE - 1 and count the value read from counter i, and
    consecutive buckets neither overlap nor leave a gap.  The constants of the
    scale are sane, the device has its NR counters, and the text is shorter
    than INT_MAX characters. *)
Theorem io_latency_read_lines `{cfg : dm_latency_config} (sc : scale)
    (kobj : kobject) (md : mapped_device) (page : list ascii) (σ : world) :
  scale_ok sc → stats_wf sc md → text_fits sc md →
  objects σ !! kobj = Some md →
  reads_all_buckets sc kobj md page σ.
Proof.
  intros Hok Hwf Hfit Hk. unfold reads_all_buckets.
  eexists _, _, (histogram_lines (scale_unit sc) (scale_GRAINSIZE sc)
                   (scale_stats sc md)).
  split; [by apply latency_read|].
  split; [apply page_text_terminated|].
  split; [done|].
  split; [by rewrite histogram_lines_length|].
  split; [apply histogram_lines_one_line, scale_unit_no_LF|].
  intros i Hi. unfold stats_wf in Hwf. rewrite <- Hwf in Hi.
  destruct (lookup_lt_is_Some_2 _ _ Hi) as [c Hc].
  exists c. split; [done|]. split; [by apply histogram_lines_lookup|].
  destruct Hok as (_ & HG & _). unfold bucket_hi, bucket_lo. lia.
Qed.

Lemma io_latency_read_lines_witness :
  reads_all_buckets (cfg := sample_config) Milli 7%nat sample_md [] sample_world.
Proof.
  apply (io_latency_read_lines (cfg := sample_config) Milli 7%nat sample_md []
           sample_world).
  - unfold scale_ok, INT_MAX. cbn. lia.
  - reflexivity.
  - unfold text_fits. vm_compute. discriminate.
  - reflexivity.
Defined.

(** ** The concrete scenario of the microsecond scale *)

(** C8: with GRAINSIZE_us = 100 and N_us = 5, reading io_latency_us on a
    device whose microsecond histogram was never incremented returns exactly
    "0-99(us):0\n100-199(us):0\n200-299(us):0\n300-399(us):0\n400-499(us):0\n",
    whatever the other two scales are. *)
Theorem io_latency_us_fresh (ms_nr ms_grain s_nr s_grain : Z)
    (kobj : kobject) (md : mapped_device) (page : list ascii) (σ : world) :
  latency_stats_us md = replicate 5 0 →
  objects σ !! kobj = Some md →
  ∃ (r : Z * list ascii) (σ' : world),
    dm_attr_show kobj
      (dm_attr_io_latency_us
         (cfg := Build_dm_latency_config 5 100 ms_nr ms_grain s_nr s_grain))
      page σ = Some (r, σ')
    ∧ r.1 = 67
    ∧ page_text r = list_ascii_of_string fresh_us_text.
Proof.
  intros Hzero Hk.
  set (cfg := Build_dm_latency_config 5 100 ms_nr ms_grain s_nr s_grain).
  pose proof (latency_read (cfg := cfg) Micro kobj md page σ) as Hread.
  unfold scale_ok, stats_wf, text_fits in Hread.
  cbn [scale_NR scale_GRAINSIZE scale_stats scale_unit scale_attr] in Hread.
  cbn [DM_LATENCY_STATS_US_NR DM_LATENCY_STATS_US_GRAINSIZE cfg] in Hread.
  rewrite Hzero in Hread.
  assert (Htext : histogram_text "us" 100 (replicate 5 0)
                  = list_ascii_of_string fresh_us_text)
    by (vm_compute; reflexivity).
  rewrite Htext in Hread.
  eexists _, _. split.
  - apply Hread; [unfold INT_MAX; lia | reflexivity | | done].
    vm_compute. discriminate.
  - split; [reflexivity|]. cbv zeta.
    apply (page_text_terminated (list_ascii_of_string fresh_us_text)).
Qed.

Lemma io_latency_us_fresh_witness :
  ∃ (r : Z * list ascii) (σ' : world),
    dm_attr_show 3%nat
      (dm_attr_io_latency_us (cfg := Build_dm_latency_config 5 100 4 250 3 10))
      [] (World {[ 3%nat := MappedDevice 1 None None true (replicate 5 0)
                              [1; 2; 3; 4] [5; 6; 7] ]} [])
    = Some (r, σ')
    ∧ r.1 = 67
    ∧ page_text r = list_ascii_of_string fresh_us_text.
Proof.
  apply (io_latency_us_fresh 4 250 3 10 3%nat
           (MappedDevice 1 None None true (replicate 5 0) [1; 2; 3; 4]
              [5; 6; 7])).
  - reflexivity.
  - reflexivity.
Defined.

(** ** The suspended attribute *)

(** C9: on every resolved device, reading the suspended attribute succeeds
    and returns exactly "0\n" or "1\n", according to the suspend state. *)
Theorem suspended_read (kobj : kobject) (md : mapped_device)
    (page : list ascii) (σ : world) :
  objects σ !! kobj = Some md →
  ∃ (r : Z * list ascii) (σ' : world),
    dm_attr_show kobj dm_attr_suspended page σ = Some (r, σ')
    ∧ r.1 = 2
    ∧ page_text r
      = list_ascii_of_string (if md_suspended md then "1" else "0") ++ [LF].
Proof.
  intros Hk. eexists _, _. split.
  - by apply (dm_attr_show_resolved kobj dm_attr_suspended
                dm_attr_suspended_show page σ md).
  - unfold dm_attr_suspended_show, sprintf, dm_suspended_md, held.
    cbn [md_suspended with_holders]. change (Z.to_nat 0) with (length (@nil ascii)).
    rewrite (store_bytes_after [] page).
    by destruct (md_suspended md).
Qed.

Lemma suspended_read_witness :
  ∃ (r : Z * list ascii) (σ' : world),
    dm_attr_show 7%nat dm_attr_suspended [] sample_world = Some (r, σ')
    ∧ r.1 = 2
    ∧ page_text r = list_ascii_of_string "0" ++ [LF].
Proof.
  apply (suspended_read 7%nat sample_md [] sample_world). reflexivity.
Defined.

(** ** Counters as [int]s *)

Lemma atomic_read_high (c : atomic_t) :
  2 ^ 31 <= c < 2 ^ 32 → atomic_read c = c - 2 ^ 32.
Proof.
  intros Hc. unfold atomic_read, to_int.
  replace (c + 2 ^ 31) with (c - 2 ^ 31 + 1 * 2 ^ 32) by lia.
  rewrite Z_mod_plus_full, Z.mod_small by lia. lia.
Qed.

Lemma atomic_read_low (c : atomic_t) : 0 <= c < 2 ^ 31 → atomic_read c = c.
Proof.
  intros Hc. apply to_int_id. int_range.
Qed.

Lemma pretty_Z_negative (z : Z) : z < 0 → pretty z = "-" +:+ pretty (- z).
Proof. destruct z as [|p|p]; [lia | lia | done]. Qed.

(** C10: in every latency read the count of a bucket is printed as a signed
    32-bit decimal: it is the counter reduced modulo 2^32 into the range of
    [int], so a counter of at least 2^31 shows as a negative number. *)
Theorem io_latency_count_signed `{cfg : dm_latency_config} (sc : scale)
    (kobj : kobject) (md : mapped_device) (page : list ascii) (σ : world)
    (i : nat) (c : atomic_t) :
  scale_ok sc → stats_wf sc md → text_fits sc md →
  objects σ !! kobj = Some md →
  scale_stats sc md !! i = Some c →
  reads_count_as_int sc kobj page σ i c.
Proof.
  intros Hok Hwf Hfit Hk Hc. unfold reads_count_as_int.
  eexists _, _, (histogram_lines (scale_unit sc) (scale_GRAINSIZE sc)
                   (scale_stats sc md)).
  split; [by apply latency_read|].
  split; [apply page_text_terminated|].
  split; [by rewrite (histogram_lines_lookup _ _ _ _ _ Hc)|].
  split; [apply to_int_range|].
  split; [apply to_int_congr|].
  split; [apply atomic_read_low|].
  intros Hhigh. rewrite (atomic_read_high c Hhigh).
  split; [done|]. split; [lia|].
  rewrite pretty_Z_negative by lia. do 2 f_equal. lia.
Qed.

Lemma io_latency_count_signed_witness :
  reads_count_as_int (cfg := sample_config) Second 7%nat [] sample_world
    1%nat (2 ^ 32 - 1).
Proof.
  apply (io_latency_count_signed (cfg := sample_config) Second 7%nat
           sample_md [] sample_world 1%nat (2 ^ 32 - 1)).
  - unfold scale_ok, INT_MAX. cbn. lia.
  - reflexivity.
  - unfold text_fits. vm_compute. discriminate.
  - reflexivity.
  - reflexivity.
Defined.

(** ** Reset *)

Lemma released_reset_held `{cfg : dm_latency_config} md :
  released (reset_md (held md)) = reset_md md.
Proof.
  destruct md. unfold released, reset_md, held, with_holders,
    with_latency_stats. cbn. f_equal. lia.
Qed.

Lemma reset_write `{cfg : dm_latency_config} kobj md page len σ :
  config_ok → md_wf md → objects σ !! kobj = Some md →
  dm_attr_store kobj dm_attr_io_latency_reset page len σ
  = Some (to_ssize_t len,
          World (<[kobj := reset_md md]> (objects σ))
            (history σ ++ [Acquire kobj; StoreCall kobj; Release kobj])).
Proof.
  intros Hcfg Hwf Hk.
  rewrite (dm_attr_store_resolved kobj dm_attr_io_latency_reset
             dm_attr_io_latency_reset_store page len σ md eq_refl Hk).
  rewrite reset_store_spec by done. cbn [fst snd].
  by rewrite released_reset_held.
Qed.

Lemma reset_md_stats `{cfg : dm_latency_config} sc md :
  scale_stats sc (reset_md md) = zero_stats sc.
Proof. by destruct sc. Qed.

(** C2: whatever the payload and its length, writing io_latency_reset on a
    resolved device zeroes every counter of the three histograms and returns
    the full length.  The length is one that [ssize_t] can hold. *)
Theorem io_latency_reset_write `{cfg : dm_latency_config} (kobj : kobject)
    (md : mapped_device) (page : list ascii) (len : Z) (σ : world) :
  config_ok → md_wf md → objects σ !! kobj = Some md →
  0 <= len <= SSIZE_MAX →
  reset_clears kobj md page len σ.
Proof.
  intros Hcfg Hwf Hk Hlen. eexists _, (reset_md md).
  split.
  { rewrite (reset_write kobj md page len σ Hcfg Hwf Hk).
    rewrite to_ssize_t_id; [done | lia]. }
  cbn [objects]. split; [apply lookup_insert_eq|].
  split.
  { intros sc i Hi. rewrite reset_md_stats. by apply lookup_replicate_2. }
  split.
  { intros sc. rewrite reset_md_stats. apply length_replicate. }
  repeat (split; [done|]).
  intros k Hne. by apply lookup_insert_ne.
Qed.

Lemma io_latency_reset_write_witness :
  reset_clears (cfg := sample_config) 7%nat sample_md
    (list_ascii_of_string "any text") 8 sample_world.
Proof.
  apply (io_latency_reset_write (cfg := sample_config) 7%nat sample_md
           (list_ascii_of_string "any text") 8 sample_world).
  - unfold config_ok, scale_ok, INT_MAX. cbn. lia.
  - unfold md_wf, stats_wf. cbn. auto.
  - reflexivity.
  - unfold SSIZE_MAX. lia.
Defined.

Lemma all_text_fit_scale `{cfg : dm_latency_config} sc md :
  all_text_fit md → text_fits sc md.
Proof. intros (?&?&?). by destruct sc. Qed.

Lemma reset_md_idemp `{cfg : dm_latency_config} md :
  reset_md (reset_md md) = reset_md md.
Proof. done. Qed.

Lemma reset_md_wf `{cfg : dm_latency_config} md : md_wf (reset_md md).
Proof.
  unfold md_wf, stats_wf. rewrite !reset_md_stats. unfold zero_stats.
  by rewrite !length_replicate.
Qed.

Lemma zero_histogram_lines unit G n :
  histogram_lines unit G (replicate n 0) = count_lines unit G (replicate n 0).
Proof. by rewrite histogram_lines_counts, fmap_replicate. Qed.

(** C6: writing io_latency_reset twice in a row leaves the histograms as
    one write does, all zero, and from any histogram state a latency read
    right after a reset shows the count 0 for every bucket of every scale. *)
Theorem io_latency_reset_idempotent `{cfg : dm_latency_config}
    (kobj : kobject) (md : mapped_device) (page1 : list ascii) (len1 : Z)
    (page2 : list ascii) (len2 : Z) (σ : world) :
  config_ok → md_wf md → all_text_fit (reset_md md) →
  objects σ !! kobj = Some md →
  reset_twice_as_once kobj md page1 len1 page2 len2 σ.
Proof.
  intros Hcfg Hwf Hfit Hk. unfold reset_twice_as_once.
  eexists _, _, _, _.
  split; [by apply reset_write|]. cbn [objects].
  split.
  { apply reset_write; [done | apply reset_md_wf | apply lookup_insert_eq]. }
  cbn [objects].
  split; [apply lookup_insert_eq|].
  split; [by rewrite insert_insert_eq, reset_md_idemp|].
  intros sc page. eexists _, _. split.
  - apply (latency_read sc kobj (reset_md md)).
    + by apply config_ok_scale.
    + apply md_wf_scale, reset_md_wf.
    + by apply all_text_fit_scale.
    + apply lookup_insert_eq.
  - rewrite page_text_terminated. unfold histogram_text.
    rewrite reset_md_stats. unfold zero_stats.
    by rewrite zero_histogram_lines.
Qed.

Lemma io_latency_reset_idempotent_witness :
  reset_twice_as_once (cfg := sample_config) 7%nat sample_md
    (list_ascii_of_string "1") 1 (list_ascii_of_string "again") 5
    sample_world.
Proof.
  apply (io_latency_reset_idempotent (cfg := sample_config) 7%nat sample_md
           (list_ascii_of_string "1") 1 (list_ascii_of_string "again") 5
           sample_world).
  - unfold config_ok, scale_ok, INT_MAX. cbn. lia.
  - unfold md_wf, stats_wf. cbn. auto.
  - unfold all_text_fit, text_fits. vm_compute.
    repeat split; discriminate.
  - reflexivity.
Defined.

(** ** Counting an I/O, then reading *)

Lemma count_io_stats `{cfg : dm_latency_config} sc i k md :
  scale_stats sc (count_io sc i k md)
  = alter (atomic_add k) i (scale_stats sc md).
Proof. by destruct sc. Qed.

Lemma counted_from_zero n i k :
  (i < n)%nat → 0 <= k <= INT_MAX →
  atomic_read <$> alter (atomic_add k) i (replicate n 0)
  = <[i := k]> (replicate n 0).
Proof.
  intros Hi Hk.
  rewrite (list_alter_ext _ (λ _, atomic_add k 0) _ (replicate n 0) i);
    [| | done].
  2:{ intros x Hx. apply lookup_replicate in Hx as [-> _]. done. }
  rewrite <- list_insert_alter, list_fmap_insert, fmap_replicate.
  f_equal. unfold atomic_add, atomic_read. cbn [Z.add].
  unfold INT_MAX in Hk. rewrite Z.mod_small by lia.
  apply to_int_id. int_range.
Qed.

(** C7, as amended: from an all-zero histogram, adding [k] to the counter
    of bucket [i] and then reading the scale shows [k] in line [i] and 0 in
    every other line, for every [k] from 0 to INT_MAX. *)
Theorem io_latency_increment_read `{cfg : dm_latency_config} (sc : scale)
    (kobj : kobject) (md : mapped_device) (page : list ascii) (σ : world)
    (i : nat) (k : Z) :
  scale_ok sc →
  scale_stats sc md = zero_stats sc →
  (i < Z.to_nat (scale_NR sc))%nat →
  0 <= k <= INT_MAX →
  text_fits sc (count_io sc i k md) →
  objects σ !! kobj = Some (count_io sc i k md) →
  increment_shows sc kobj page σ i k.
Proof.
  intros Hok Hzero Hi Hk Hfit Hobj. unfold increment_shows.
  eexists _, _. split.
  - apply (latency_read sc kobj (count_io sc i k md)); [done | | done | done].
    unfold stats_wf. rewrite count_io_stats, Hzero. unfold zero_stats.
    by rewrite length_alter, length_replicate.
  - rewrite page_text_terminated. unfold histogram_text.
    rewrite histogram_lines_counts, count_io_stats, Hzero.
    unfold zero_stats. by rewrite counted_from_zero.
Qed.

Lemma io_latency_increment_read_witness :
  increment_shows (cfg := sample_config) Milli 7%nat []
    (World {[ 7%nat := count_io (cfg := sample_config) Milli 2 41 zero_md ]} [])
    2 41.
Proof.
  apply (io_latency_increment_read (cfg := sample_config) Milli 7%nat zero_md
           [] _ 2%nat 41).
  - unfold scale_ok, INT_MAX. cbn. lia.
  - reflexivity.
  - cbn. lia.
  - unfold INT_MAX. lia.
  - unfold text_fits. vm_compute. discriminate.
  - reflexivity.
Defined.

(** C7, as stated, fails at k = 2^31: on the sample configuration, after
    2^31 increments of bucket 0 of the microsecond scale the read shows
    -2147483648 in line 0, not 2147483648. *)
Lemma io_latency_increment_read_wraps :
  let σ := World {[ 7%nat := count_io (cfg := sample_config) Micro 0
                               (2 ^ 31) zero_md ]} [] in
  (page_text ∘ fst <$> dm_attr_show 7%nat
                         (dm_attr_io_latency_us (cfg := sample_config)) [] σ)
  = Some (list_ascii_of_string
            ("0-99(us):-2147483648" +:+ nl +:+ "100-199(us):0" +:+ nl
             +:+ "200-299(us):0" +:+ nl +:+ "300-399(us):0" +:+ nl
             +:+ "400-499(us):0" +:+ nl))
  ∧ ¬ increment_shows (cfg := sample_config) Micro 7%nat [] σ 0 (2 ^ 31).
Proof.
  intros σ. split; [by vm_compute|].
  intros (r & σ' & Hrun & Htext).
  vm_compute in Hrun. injection Hrun as <- _.
  vm_compute in Htext. discriminate.
Qed.

(** ** Errors of the dispatchers

    The dispatchers return negative error numbers.  In the vocabulary of the
    specification, [- EIO] from a dispatcher is Unsupported, [- EINVAL] is
    InvalidHandle, and NotFound is the [- ENOENT] of the file system above. *)

(** C3: for every descriptor without a show callback a read fails with
    Unsupported, which is not NotFound, and for every descriptor without a
    store callback a write fails with Unsupported, whatever the handle and
    the payload; io_latency_reset is such a write-only descriptor, and the
    six others are read-only. *)
Theorem unsupported_operation `{cfg : dm_latency_config}
    (a b : dm_sysfs_attr) (kobj kobj' : kobject) (page page' : list ascii)
    (len : Z) (σ σ' : world) :
  show a = None → store b = None →
  dm_attr_show kobj a page σ = Some ((- EIO, page), σ)
  ∧ dm_attr_store kobj' b page' len σ' = Some (- EIO, σ')
  ∧ - EIO ≠ - ENOENT
  ∧ show dm_attr_io_latency_reset = None
  ∧ Forall (λ d, store d = None)
      [dm_attr_name; dm_attr_uuid; dm_attr_suspended; dm_attr_io_latency_us;
       dm_attr_io_latency_ms; dm_attr_io_latency_s].
Proof.
  intros Ha Hb.
  split; [by apply dm_attr_show_unsupported|].
  split; [by apply dm_attr_store_unsupported|].
  split; [done|]. split; [done|].
  by repeat apply Forall_cons_2.
Qed.

Lemma unsupported_operation_witness :
  dm_attr_show 7%nat (dm_attr_io_latency_reset (cfg := sample_config)) []
    sample_world = Some ((- EIO, []), sample_world)
  ∧ dm_attr_store 9%nat dm_attr_name (list_ascii_of_string "x") 1 sample_world
    = Some (- EIO, sample_world)
  ∧ - EIO ≠ - ENOENT
  ∧ show (dm_attr_io_latency_reset (cfg := sample_config)) = None
  ∧ Forall (λ d, store d = None)
      [dm_attr_name; dm_attr_uuid; dm_attr_suspended;
       dm_attr_io_latency_us (cfg := sample_config);
       dm_attr_io_latency_ms (cfg := sample_config);
       dm_attr_io_latency_s (cfg := sample_config)].
Proof.
  apply (unsupported_operation (cfg := sample_config)
           dm_attr_io_latency_reset dm_attr_name).
  - reflexivity.
  - reflexivity.
Defined.

(** C4: when the descriptor has the requested callback and the device
    behind the handle is gone, both dispatchers return InvalidHandle; no
    callback runs, no reference is released, and the world is as before. *)
Theorem gone_device (a b : dm_sysfs_attr) (f : show_fn) (g : store_fn)
    (kobj : kobject) (page page' : list ascii) (len : Z) (σ : world) :
  show a = Some f → store b = Some g →
  objects σ !! kobj = None →
  dm_attr_show kobj a page σ = Some ((- EINVAL, page), σ)
  ∧ dm_attr_store kobj b page' len σ = Some (- EINVAL, σ).
Proof.
  intros Ha Hb Hk. split.
  - by apply (dm_attr_show_gone kobj a f).
  - by apply (dm_attr_store_gone kobj b g).
Qed.

Lemma gone_device_witness :
  dm_attr_show 8%nat dm_attr_name (list_ascii_of_string "old") sample_world
  = Some ((- EINVAL, list_ascii_of_string "old"), sample_world)
  ∧ dm_attr_store 8%nat (dm_attr_io_latency_reset (cfg := sample_config))
      (list_ascii_of_string "1") 1 sample_world
    = Some (- EINVAL, sample_world).
Proof.
  apply (gone_device dm_attr_name
           (dm_attr_io_latency_reset (cfg := sample_config))
           dm_attr_name_show
           (dm_attr_io_latency_reset_store (cfg := sample_config))
           8%nat).
  - reflexivity.
  - reflexivity.
  - reflexivity.
Defined.

(** C5: every read and every write dispatch returns, and it releases the
    reference of a successful resolution exactly once, after the callback and
    whatever the callback returns; it releases nothing when it resolved
    nothing.  A read leaves every device, its holder count included, as it
    was; after a write the device is the one the store callback left, with
    the holder count of before the call unless the callback changed it. *)
Theorem reference_paired (a : dm_sysfs_attr) (kobj : kobject)
    (page : list ascii) (len : Z) (σ : world) :
  dispatch_paired a kobj page len σ.
Proof.
  unfold dispatch_paired. split.
  - destruct (show a) as [f|] eqn:Ha; [destruct (objects σ !! kobj) as [md|] eqn:Hk|].
    + rewrite (dm_attr_show_resolved kobj a f page σ md Ha Hk).
      eexists _, _. split; [done|]. cbn [objects history].
      split; [right; eauto|]. split; [done|].
      intros f' md' [= <-] [= <-]. done.
    + rewrite (dm_attr_show_gone kobj a f page σ Ha Hk).
      eexists _, _. split; [done|]. split; [by left|]. split; [done|].
      intros f' md' _ [=].
    + rewrite (dm_attr_show_unsupported kobj a page σ Ha).
      eexists _, _. split; [done|]. split; [by left|]. split; [done|].
      intros f' md' [=].
  - destruct (store a) as [g|] eqn:Ha; [destruct (objects σ !! kobj) as [md|] eqn:Hk|].
    + rewrite (dm_attr_store_resolved kobj a g page len σ md Ha Hk).
      eexists _, _. split; [done|]. cbn [objects history].
      split; [right; eauto|]. split.
      { intros Hh. apply (f_equal length) in Hh.
        rewrite length_app in Hh. simpl in Hh. lia. }
      intros g' md' [= <-] [= <-]. done.
    + rewrite (dm_attr_store_gone kobj a g page len σ Ha Hk).
      eexists _, _. split; [done|]. split; [by left|]. split; [done|].
      intros g' md' _ [=].
    + rewrite (dm_attr_store_unsupported kobj a page len σ Ha).
      eexists _, _. split; [done|]. split; [by left|]. split; [done|].
      intros g' md' [=].
Qed.

Lemma reference_paired_witness :
  dispatch_paired dm_attr_name 7%nat [] 0 sample_world.
Proof. apply (reference_paired dm_attr_name 7%nat [] 0 sample_world). Defined.

(** A callback that fails: the name of a device that has none cannot be
    read, and the reference is released all the same. *)
Example name_read_fails_and_releases :
  dm_attr_show 2%nat dm_attr_name []
    (World {[ 2%nat := MappedDevice 1 None None false [] [] [] ]} [])
  = Some ((- EIO, []),
          World {[ 2%nat := MappedDevice 1 None None false [] [] [] ]}
            [Acquire 2%nat; ShowCall 2%nat; Release 2%nat]).
Proof. by vm_compute. Qed.

(** * Further properties *)

(** ** The name and the uuid *)

Lemma ident_show_success what md buf s :
  ident_value what md = Some s → NUL ∉ s →
  Z.of_nat (length s) < SSIZE_MAX →
  ident_show what md buf
  = (Z.of_nat (length s) + 1,
     s ++ LF :: NUL :: drop (S (S (length s))) buf).
Proof.
  intros Hv Hs Hlen.
  assert (Hcpy : strcpy buf s = s ++ NUL :: drop (S (length s)) buf).
  { unfold strcpy. rewrite (store_bytes_after [] buf).
    rewrite length_app, <- (assoc_L (++)). cbn [app length].
    by rewrite Nat.add_1_r. }
  assert (Hcat : strcat (strcpy buf s) [LF]
                 = s ++ LF :: NUL :: drop (S (S (length s))) buf).
  { unfold strcat. rewrite Hcpy, strlen_terminated by done.
    rewrite store_bytes_after. cbn [app length drop].
    by rewrite drop_drop, Nat.add_1_r. }
  assert (Hlen' : strlen (s ++ LF :: NUL :: drop (S (S (length s))) buf)
                  = S (length s)).
  { change (s ++ LF :: NUL :: ?r) with (s ++ [LF] ++ NUL :: r).
    rewrite (assoc_L (++)), strlen_terminated.
    - rewrite length_app. cbn. lia.
    - rewrite elem_of_app, list_elem_of_singleton. by intros [?|?]. }
  destruct what; cbn [ident_show ident_value] in *.
  - unfold dm_attr_name_show, dm_copy_name_and_uuid. rewrite Hv.
    cbn -[strcpy strcat strlen to_ssize_t].
    rewrite Hcat, Hlen', to_ssize_t_id; [f_equal; lia | int_range].
  - unfold dm_attr_uuid_show, dm_copy_name_and_uuid. rewrite Hv.
    cbn -[strcpy strcat strlen to_ssize_t].
    rewrite Hcat, Hlen', to_ssize_t_id; [f_equal; lia | int_range].
Qed.

Lemma ident_attr_show what : show (ident_attr what) = Some (ident_show what).
Proof. by destruct what. Qed.

Lemma ident_value_held what md :
  ident_value what (held md) = ident_value what md.
Proof. by destruct what. Qed.

(** X1: a read of the name, or of the uuid, of a live device that has this
    string returns the string followed by a line feed and the length of both;
    the page keeps what it held past the text and its NUL, and no device
    changes.  The string is a C string that [ssize_t] can measure. *)
Theorem ident_read (what : ident) (kobj : kobject) (md : mapped_device)
    (page : list ascii) (σ : world) (s : list ascii) :
  objects σ !! kobj = Some md →
  ident_value what md = Some s →
  NUL ∉ s → Z.of_nat (length s) < SSIZE_MAX →
  reads_ident what kobj page σ s.
Proof.
  intros Hk Hv Hs Hlen. unfold reads_ident.
  rewrite (dm_attr_show_resolved _ _ _ page _ _ (ident_attr_show what) Hk).
  rewrite (ident_show_success what (held md) page s)
    by (by rewrite ?ident_value_held).
  eexists _, _. split; [done|]. cbn [fst snd objects].
  split; [done|]. split.
  { unfold page_text. cbn [fst snd].
    rewrite (cons_middle LF s), (assoc_L (++)).
    apply take_app_length'. rewrite length_app. cbn. lia. }
  split.
  { rewrite (cons_middle LF s), (assoc_L (++)).
    rewrite lookup_app_r; rewrite length_app; cbn; [|lia].
    by replace (S (length s) - (length s + 1))%nat with 0%nat by lia. }
  split; [|done].
  rewrite (cons_middle LF s), (cons_middle NUL), !(assoc_L (++)).
  apply drop_app_length'. rewrite !length_app. cbn. lia.
Qed.

Lemma ident_read_witness :
  reads_ident Uuid 7%nat (list_ascii_of_string "stale page content")
    sample_world (list_ascii_of_string "LVM-abc").
Proof.
  apply (ident_read Uuid 7%nat sample_md
           (list_ascii_of_string "stale page content") sample_world
           (list_ascii_of_string "LVM-abc")).
  - reflexivity.
  - reflexivity.
  - by apply (bool_decide_unpack _).
  - unfold SSIZE_MAX. cbn. lia.
Defined.

(** X2: a read of the name, or of the uuid, of a live device that cannot
    give this string fails with the error EIO; the page and the devices are
    as before, and the reference taken for the call is given back. *)
Theorem ident_read_unavailable (what : ident) (kobj : kobject)
    (md : mapped_device) (page : list ascii) (σ : world) :
  objects σ !! kobj = Some md →
  ident_value what md = None →
  dm_attr_show kobj (ident_attr what) page σ
  = Some ((- EIO, page),
          World (objects σ)
            (history σ ++ [Acquire kobj; ShowCall kobj; Release kobj])).
Proof.
  intros Hk Hv.
  rewrite (dm_attr_show_resolved _ _ _ page _ _ (ident_attr_show what) Hk).
  do 2 f_equal. rewrite <- (ident_value_held what) in Hv.
  destruct what; cbn [ident_show ident_value] in *.
  - unfold dm_attr_name_show, dm_copy_name_and_uuid. by rewrite Hv.
  - unfold dm_attr_uuid_show, dm_copy_name_and_uuid. rewrite Hv.
    by destruct (md_name (held md)).
Qed.

Lemma ident_read_unavailable_witness :
  dm_attr_show 4%nat (ident_attr Name) (list_ascii_of_string "old")
    nameless_world
  = Some ((- EIO, list_ascii_of_string "old"),
          World (objects nameless_world)
            (history nameless_world
             ++ [Acquire 4%nat; ShowCall 4%nat; Release 4%nat])).
Proof.
  apply (ident_read_unavailable Name 4%nat nameless_md
           (list_ascii_of_string "old") nameless_world).
  - reflexivity.
  - reflexivity.
Defined.

(** ** The page of a latency read *)

(** X3: the text and the length that a latency read returns do not depend
    on what the page held before, and the read writes nothing past the NUL
    that ends the text. *)
Theorem io_latency_read_page `{cfg : dm_latency_config} (sc : scale)
    (kobj : kobject) (md : mapped_device) (page1 page2 : list ascii)
    (σ : world) :
  scale_ok sc → stats_wf sc md → text_fits sc md →
  objects σ !! kobj = Some md →
  reads_regardless_of_page sc kobj page1 page2 σ.
Proof.
  intros Hok Hwf Hfit Hk. unfold reads_regardless_of_page.
  rewrite !(latency_read sc kobj md _ σ Hok Hwf Hfit Hk).
  eexists _, _, _, _. split; [done|]. split; [done|].
  cbn [fst snd]. rewrite Nat2Z.id. split; [done|].
  split; [by rewrite !page_text_terminated|].
  split.
  - by rewrite lookup_app_r, Nat.sub_diag.
  - rewrite cons_middle, (assoc_L (++)).
    apply drop_app_length'. rewrite length_app. cbn. lia.
Qed.

Lemma io_latency_read_page_witness :
  reads_regardless_of_page (cfg := sample_config) Micro 7%nat []
    (list_ascii_of_string "what an earlier read left") sample_world.
Proof.
  apply (io_latency_read_page (cfg := sample_config) Micro 7%nat sample_md []
           (list_ascii_of_string "what an earlier read left") sample_world).
  - unfold scale_ok, INT_MAX. cbn. lia.
  - reflexivity.
  - unfold text_fits. vm_compute. discriminate.
  - reflexivity.
Defined.

(** ** The size of the text *)

Lemma pretty_N_go_grows (x : N) : ∀ s : string,
  (length (list_ascii_of_string s)
   ≤ length (list_ascii_of_string (pretty_N_go x s)))%nat.
Proof.
  induction (N.lt_wf_0 x) as [x _ IH]; intros s.
  destruct (decide (x = 0)%N) as [->|Hx]; [by rewrite pretty_N_go_0|].
  rewrite pretty_N_go_step by lia.
  etrans; [|apply IH; apply N.div_lt; lia].
  cbn [list_ascii_of_string length]. lia.
Qed.

Lemma pretty_Z_nonempty (z : Z) :
  (1 ≤ length (list_ascii_of_string (pretty z)))%nat.
Proof.
  assert (HN : ∀ p, (1 ≤ length (list_ascii_of_string
                                   (pretty (N.pos p))))%nat).
  { intros p. unfold pretty, pretty_N. rewrite decide_False by done.
    rewrite pretty_N_go_step by lia.
    etrans; [|apply pretty_N_go_grows]. cbn [list_ascii_of_string length]. lia. }
  destruct z as [|p|p]; unfold pretty, pretty_Z.
  - cbn. lia.
  - apply HN.
  - rewrite list_ascii_of_string_app, length_app.
    cbn [list_ascii_of_string length]. lia.
Qed.

Lemma bucket_line_min_length sc lo hi count :
  (9 ≤ length (bucket_line (scale_unit sc) lo hi count))%nat.
Proof.
  unfold bucket_line.
  rewrite length_app, !list_ascii_of_string_app, !length_app.
  pose proof (pretty_Z_nonempty lo). pose proof (pretty_Z_nonempty hi).
  pose proof (pretty_Z_nonempty count).
  destruct sc; cbn; lia.
Qed.

Lemma concat_length_min {A} (n : nat) (ls : list (list A)) :
  Forall (λ l, (n ≤ length l)%nat) ls →
  (n * length ls ≤ length (concat ls))%nat.
Proof.
  induction 1 as [|l ls Hl _ IH]; cbn [concat length]; [lia|].
  rewrite length_app. lia.
Qed.

Lemma histogram_text_min_length `{cfg : dm_latency_config} sc md :
  (9 * length (scale_stats sc md)
   ≤ length (histogram_text (scale_unit sc) (scale_GRAINSIZE sc)
               (scale_stats sc md)))%nat.
Proof.
  unfold histogram_text. rewrite <- (histogram_lines_length (scale_unit sc)
    (scale_GRAINSIZE sc) (scale_stats sc md)).
  apply concat_length_min, Forall_forall. intros l Hl.
  apply elem_of_lookup_imap_1 in Hl as (i & c & -> & _).
  apply bucket_line_min_length.
Qed.

(** X4: a latency read returns at least 9 and at most 40 characters for
    each bucket, and the length it returns is the length of its text.  The
    constants are sane and 40 * NR does not exceed INT_MAX. *)
Theorem io_latency_read_size `{cfg : dm_latency_config} (sc : scale)
    (kobj : kobject) (md : mapped_device) (page : list ascii) (σ : world) :
  scale_ok sc → stats_wf sc md → 40 * scale_NR sc <= INT_MAX →
  objects σ !! kobj = Some md →
  reads_bounded_text sc kobj page σ.
Proof.
  intros Hok Hwf Hsmall Hk. unfold reads_bounded_text.
  pose proof (text_fits_small sc md Hok Hwf Hsmall) as Hfit.
  rewrite (latency_read sc kobj md page σ Hok Hwf Hfit Hk).
  eexists _, _. split; [done|]. rewrite page_text_terminated. cbn [fst].
  split; [|done].
  pose proof (histogram_text_min_length sc md) as Hmin.
  unfold stats_wf in Hwf. rewrite Hwf in Hmin.
  destruct Hok as (HNR & HG & Hmax). split; [lia|].
  unfold histogram_text.
  etrans; [apply inj_le, (concat_length_bound 40)|].
  - apply Forall_forall. intros l Hl.
    apply elem_of_lookup_imap_1 in Hl as (i & c & -> & Hc).
    apply lookup_lt_Some in Hc. rewrite Hwf in Hc. unfold INT_MAX in *.
    apply bucket_line_length; [| |apply to_int_range];
      unfold bucket_hi, bucket_lo, in_int, INT_MIN, INT_MAX; nia.
  - rewrite histogram_lines_length, Hwf. lia.
Qed.

Lemma io_latency_read_size_witness :
  reads_bounded_text (cfg := sample_config) Second 7%nat [] sample_world.
Proof.
  apply (io_latency_read_size (cfg := sample_config) Second 7%nat sample_md
           [] sample_world).
  - unfold scale_ok, INT_MAX. cbn. lia.
  - reflexivity.
  - unfold INT_MAX. cbn. lia.
  - reflexivity.
Defined.

(** ** Reading the counters back from the text *)

Lemma split_at_line_feed (b1 b2 r1 r2 : list ascii) :
  LF ∉ b1 → LF ∉ b2 → b1 ++ LF :: r1 = b2 ++ LF :: r2 → b1 = b2 ∧ r1 = r2.
Proof.
  revert b2. induction b1 as [|c b1 IH]; intros [|c' b2] H1 H2 Heq;
    cbn [app] in Heq.
  - by injection Heq.
  - injection Heq as <- _. by apply not_elem_of_cons in H2 as [? _].
  - injection Heq as -> _. by apply not_elem_of_cons in H1 as [? _].
  - injection Heq as -> Heq.
    apply not_elem_of_cons in H1 as [_ H1].
    apply not_elem_of_cons in H2 as [_ H2].
    destruct (IH b2 H1 H2 Heq) as [-> ->]. done.
Qed.

Lemma one_line_concat_inj (ls1 ls2 : list (list ascii)) :
  Forall one_line ls1 → Forall one_line ls2 →
  concat ls1 = concat ls2 → ls1 = ls2.
Proof.
  intros H1. revert ls2.
  induction H1 as [|l1 ls1 (b1 & -> & Hb1) _ IH];
    intros ls2 H2 Heq; destruct H2 as [|l2 ls2 (b2 & -> & Hb2) H2].
  - done.
  - cbn [concat] in Heq. rewrite <- !(assoc_L (++)) in Heq.
    by destruct b2.
  - cbn [concat] in Heq. rewrite <- !(assoc_L (++)) in Heq.
    by destruct b1.
  - cbn [concat] in Heq. rewrite <- !(assoc_L (++)) in Heq.
    cbn [app] in Heq.
    destruct (split_at_line_feed _ _ _ _ Hb1 Hb2 Heq) as [-> Hrest].
    f_equal. by apply IH.
Qed.

Lemma list_ascii_of_string_inj (s1 s2 : string) :
  list_ascii_of_string s1 = list_ascii_of_string s2 → s1 = s2.
Proof.
  intros Heq. rewrite <- (string_of_list_ascii_of_string s1),
    <- (string_of_list_ascii_of_string s2). by rewrite Heq.
Qed.

Lemma bucket_line_count_inj unit lo hi c1 c2 :
  bucket_line unit lo hi c1 = bucket_line unit lo hi c2 → c1 = c2.
Proof.
  unfold bucket_line. intros Heq.
  apply (inj (λ l, l ++ [LF])) in Heq.
  rewrite !list_ascii_of_string_app in Heq.
  do 6 apply (inj (app _)) in Heq.
  by apply list_ascii_of_string_inj, (inj pretty) in Heq.
Qed.

Lemma histogram_text_inj unit G (stats1 stats2 : list atomic_t) :
  LF ∉ list_ascii_of_string unit →
  histogram_text unit G stats1 = histogram_text unit G stats2 →
  atomic_read <$> stats1 = atomic_read <$> stats2.
Proof.
  intros Hu Heq.
  apply one_line_concat_inj in Heq; [|by apply histogram_lines_one_line..].
  apply list_eq. intros i. rewrite !list_lookup_fmap.
  apply (f_equal (.!! i)) in Heq. unfold histogram_lines in Heq.
  rewrite !list_lookup_imap in Heq.
  destruct (stats1 !! i) as [c1|], (stats2 !! i) as [c2|];
    cbn [fmap option_fmap option_map] in *; try done.
  injection Heq as Heq. by apply bucket_line_count_inj in Heq as ->.
Qed.

(** X5: the text of a latency read determines the counters as [int]s: two
    reads of the same scale that return the same text were made on
    histograms whose counters read the same, bucket for bucket. *)
Theorem io_latency_text_determines_counts `{cfg : dm_latency_config}
    (sc : scale) (kobj1 kobj2 : kobject) (md1 md2 : mapped_device)
    (page1 page2 : list ascii) (σ1 σ2 σ1' σ2' : world)
    (r1 r2 : Z * list ascii) :
  scale_ok sc →
  stats_wf sc md1 → text_fits sc md1 → objects σ1 !! kobj1 = Some md1 →
  stats_wf sc md2 → text_fits sc md2 → objects σ2 !! kobj2 = Some md2 →
  dm_attr_show kobj1 (scale_attr sc) page1 σ1 = Some (r1, σ1') →
  dm_attr_show kobj2 (scale_attr sc) page2 σ2 = Some (r2, σ2') →
  page_text r1 = page_text r2 →
  atomic_read <$> scale_stats sc md1 = atomic_read <$> scale_stats sc md2.
Proof.
  intros Hok Hwf1 Hfit1 Hk1 Hwf2 Hfit2 Hk2 Hrun1 Hrun2 Htext.
  rewrite (latency_read sc kobj1 md1 page1 σ1 Hok Hwf1 Hfit1 Hk1) in Hrun1.
  rewrite (latency_read sc kobj2 md2 page2 σ2 Hok Hwf2 Hfit2 Hk2) in Hrun2.
  injection Hrun1 as <- _. injection Hrun2 as <- _.
  rewrite !page_text_terminated in Htext.
  by apply (histogram_text_inj (scale_unit sc) (scale_GRAINSIZE sc) _ _
              (scale_unit_no_LF sc)).
Qed.

Lemma io_latency_text_determines_counts_witness :
  atomic_read <$> scale_stats Second sample_md
  = atomic_read <$> scale_stats Second (with_holders 5 sample_md).
Proof.
  apply (io_latency_text_determines_counts (cfg := sample_config) Second
           7%nat 9%nat sample_md (with_holders 5 sample_md)
           [] (list_ascii_of_string "x")
           sample_world (World {[ 9%nat := with_holders 5 sample_md ]} [])
           (World (objects sample_world)
              (history sample_world
               ++ [Acquire 7%nat; ShowCall 7%nat; Release 7%nat]))
           (World {[ 9%nat := with_holders 5 sample_md ]}
              [Acquire 9%nat; ShowCall 9%nat; Release 9%nat])
           (dm_attr_io_latency_s_show (cfg := sample_config) sample_md [])
           (dm_attr_io_latency_s_show (cfg := sample_config) sample_md
              (list_ascii_of_string "x"))).
  - unfold scale_ok, INT_MAX. cbn. lia.
  - reflexivity.
  - unfold text_fits. vm_compute. discriminate.
  - reflexivity.
  - reflexivity.
  - unfold text_fits. vm_compute. discriminate.
  - reflexivity.
  - by vm_compute.
  - by vm_compute.
  - by vm_compute.
Defined.

(** ** The attribute table *)

(** X6: the seven attributes of the table have seven different names; each
    has exactly one of the two callbacks; the mode of each lets everyone
    read, and lets the owner write exactly when there is a store callback.
    So io_latency_reset, which has no show callback, is readable by its
    mode. *)
Theorem dm_attrs_table `{cfg : dm_latency_config} :
  NoDup (attr_name ∘ attr <$> dm_attrs)
  ∧ length dm_attrs = 7%nat
  ∧ Forall (λ d, is_Some (show d) ↔ store d = None) dm_attrs
  ∧ Forall (λ d, Z.land (attr_mode (attr d)) S_IRUGO = S_IRUGO) dm_attrs
  ∧ Forall (λ d, Z.land (attr_mode (attr d)) S_IWUSR = S_IWUSR
                 ↔ is_Some (store d)) dm_attrs.
Proof.
  split; [by apply (bool_decide_unpack _)|]. split; [done|].
  unfold dm_attrs.
  split; [|split]; repeat apply Forall_cons_2; try apply Forall_nil_2;
    cbn; try done; split; intros H; try done;
    solve [by inversion H | by eexists].
Qed.

(** ** Any sequence of reads and writes *)

Lemma latency_reset_loop_length todo : ∀ i (stats : list atomic_t),
  length (latency_reset_loop todo i stats) = length stats.
Proof.
  induction todo as [|todo IH]; intros i stats; [done|].
  cbn [latency_reset_loop]. by rewrite IH, length_insert.
Qed.

#[local] Instance same_shape_refl : Reflexive same_shape.
Proof. intros md. by repeat split. Qed.

#[local] Instance same_shape_trans : Transitive same_shape.
Proof.
  intros m1 m2 m3 (?&?&?&?&?&?&?) (?&?&?&?&?&?&?).
  repeat split; congruence.
Qed.

Lemma shape_preserved_refl σ σ' : objects σ' = objects σ → shape_preserved σ σ'.
Proof. intros Ho k. by rewrite Ho. Qed.

Lemma shape_preserved_trans σ1 σ2 σ3 :
  shape_preserved σ1 σ2 → shape_preserved σ2 σ3 → shape_preserved σ1 σ3.
Proof.
  intros H12 H23 k. specialize (H12 k). specialize (H23 k).
  destruct H12; inversion H23; constructor. by etrans.
Qed.

Lemma reset_store_shape `{cfg : dm_latency_config} md buf len :
  same_shape md
    (released (dm_attr_io_latency_reset_store (held md) buf len).2).
Proof.
  unfold same_shape, dm_attr_io_latency_reset_store, released, held,
    with_holders, with_latency_stats.
  cbn. rewrite !latency_reset_loop_length. repeat split. lia.
Qed.

Lemma table_store `{cfg : dm_latency_config} a :
  a ∈ dm_attrs →
  store a = None ∨ store a = Some dm_attr_io_latency_reset_store.
Proof.
  unfold dm_attrs. rewrite !elem_of_cons, elem_of_nil.
  intros [->|[->|[->|[->|[->|[->|[->|[]]]]]]]]; auto.
Qed.

Lemma serve_shape `{cfg : dm_latency_config} rq σ :
  request_attr rq ∈ dm_attrs →
  ∃ r σ', serve rq σ = Some (r, σ') ∧ shape_preserved σ σ'.
Proof.
  intros Ha. destruct rq as [kobj a page|kobj a page len];
    cbn [serve request_attr] in *; unfold mbind, M_bind, mret, M_ret.
  - destruct (show a) as [f|] eqn:Hshow;
      [destruct (objects σ !! kobj) as [md|] eqn:Hk|].
    + rewrite (dm_attr_show_resolved kobj a f page σ md Hshow Hk).
      eexists _, _. split; [done|]. by apply shape_preserved_refl.
    + rewrite (dm_attr_show_gone kobj a f page σ Hshow Hk).
      eexists _, _. split; [done|]. by apply shape_preserved_refl.
    + rewrite (dm_attr_show_unsupported kobj a page σ Hshow).
      eexists _, _. split; [done|]. by apply shape_preserved_refl.
  - destruct (table_store a Ha) as [Hstore|Hstore];
      [|destruct (objects σ !! kobj) as [md|] eqn:Hk].
    + rewrite (dm_attr_store_unsupported kobj a page len σ Hstore).
      eexists _, _. split; [done|]. by apply shape_preserved_refl.
    + rewrite (dm_attr_store_resolved kobj a _ page len σ md Hstore Hk).
      eexists _, _. split; [done|]. intros k. cbn [objects].
      destruct (decide (k = kobj)) as [->|Hne].
      * rewrite lookup_insert_eq, Hk. constructor. apply reset_store_shape.
      * by rewrite lookup_insert_ne.
    + rewrite (dm_attr_store_gone kobj a _ page len σ Hstore Hk).
      eexists _, _. split; [done|]. by apply shape_preserved_refl.
Qed.

(** X7: whatever reads and writes of the seven attributes are served, in
    whatever order and through whatever handles, each of them returns, no
    device appears or disappears, and every device keeps its holder count,
    its name, its uuid, its suspend state and the sizes of its three
    histograms. *)
Theorem requests_keep_shape `{cfg : dm_latency_config} (rqs : list request)
    (σ : world) :
  Forall (λ rq, request_attr rq ∈ dm_attrs) rqs →
  served_in_shape rqs σ.
Proof.
  intros Hrqs. revert σ. unfold served_in_shape.
  induction Hrqs as [|rq rqs Hrq _ IH]; intros σ.
  - eexists _, _. split; [done|]. split; [done|].
    by apply shape_preserved_refl.
  - destruct (serve_shape rq σ Hrq) as (r & σ1 & Hrun & Hshape).
    destruct (IH σ1) as (rs & σ2 & Hruns & Hlen & Hshapes).
    exists (r :: rs), σ2. cbn [serve_all]. unfold mbind, M_bind.
    rewrite Hrun, Hruns. split; [done|]. split; [cbn; by rewrite Hlen|].
    by eapply shape_preserved_trans.
Qed.

Lemma requests_keep_shape_witness :
  served_in_shape
    [Read 7%nat (dm_attr_io_latency_ms (cfg := sample_config)) [];
     Write 7%nat (dm_attr_io_latency_reset (cfg := sample_config))
       (list_ascii_of_string "1") 1;
     Write 7%nat dm_attr_name (list_ascii_of_string "vol1") 4;
     Read 8%nat dm_attr_suspended [];
     Read 7%nat dm_attr_name []]
    sample_world.
Proof.
  apply (requests_keep_shape (cfg := sample_config)).
  repeat apply Forall_cons_2; try apply Forall_nil_2;
    cbn [request_attr]; unfold dm_attrs;
    rewrite !elem_of_cons; tauto.
Defined.
